(** * collect_and_clean.py: configuration loading and file discovery

    A shallow embedding of [src/collect_and_clean.py] (the dataclasses
    [SourceConfig], [CleaningConfig], [ExportConfig], [AppConfig], and the
    functions [ensure_dir], [load_config] and [collect_files]) together with
    the properties the specification states about them.

    Conventions of the embedding.
    - A Python [str] is a [string]; every [ascii] stands for one character
      (code points below 256), so that [list(s)], [s.lower()], [repr(s)] and
      the ordering of strings are the ones of Python on that range.
    - A Python object produced by [yaml.safe_load] is a [value]: [None],
      booleans, integers, strings, lists and dictionaries (in insertion
      order).  Floats and timestamps are outside the modelled fragment.
    - An exception is an [exn]; effectful functions live in [IO], which
      pairs the outcome with the trace of operating-system calls made.
    - The filesystem, the YAML library and the interpreter's set iteration
      order are observed through a [World]. *)

From stdpp Require Import gmap strings list sorting pretty.
From Stdlib Require Import Ascii String ZArith Lia.

Local Open Scope string_scope.
Local Open Scope list_scope.

(** ** Outcomes and exceptions *)

Inductive exn : Type :=
  | FileNotFoundError (msg : string)
  | RuntimeError (msg : string)
  | AttributeError
  | TypeError
  | ValueError
  | NotImplementedError
  | OSError
  | YAMLError.

Inductive result (A : Type) : Type :=
  | Ok (a : A)
  | Raise (e : exn).
Arguments Ok {A} a.
Arguments Raise {A} e.

Definition result_bind {A B} (r : result A) (k : A -> result B) : result B :=
  match r with
  | Ok a => k a
  | Raise e => Raise e
  end.

(** ** Python objects *)

#[local] Unset Elimination Schemes.
Inductive value : Type :=
  | PNone
  | PBool (b : bool)
  | PInt (z : Z)
  | PStr (s : string)
  | PList (l : list value)
  | PDict (d : list (value * value)).
#[local] Set Elimination Schemes.

(** [bool(v)], the truth value that [or] and [bool()] test. *)
Definition truthy (v : value) : bool :=
  match v with
  | PNone => false
  | PBool b => b
  | PInt z => negb (Z.eqb z 0)
  | PStr s => negb (String.eqb s "")
  | PList l => match l with [] => false | _ => true end
  | PDict d => match d with [] => false | _ => true end
  end.

(** [a or b] on already evaluated operands. *)
Definition py_or (a b : value) : value := if truthy a then a else b.

(** *** [str.lower()] on the Latin-1 range *)

Definition lower_char (c : ascii) : ascii :=
  let n := N_of_ascii c in
  if ((65 <=? n) && (n <=? 90))%N then ascii_of_N (n + 32)
  else if ((192 <=? n) && (n <=? 222) && negb (n =? 215))%N then ascii_of_N (n + 32)
  else c.

Fixpoint lower (s : string) : string :=
  match s with
  | EmptyString => EmptyString
  | String c s' => String (lower_char c) (lower s')
  end.

(** *** [repr] and [str] *)

Definition hex_digit (n : N) : ascii :=
  if (n <? 10)%N then ascii_of_N (48 + n) else ascii_of_N (87 + n).

Definition printable (c : ascii) : bool :=
  let n := N_of_ascii c in
  ((32 <=? n) && (n <=? 126) || (161 <=? n) && negb (n =? 173))%N.

Definition dquote : ascii := "034"%char.
Definition squote : ascii := "039"%char.
Definition backslash : ascii := "092"%char.

Fixpoint contains_char (c : ascii) (s : string) : bool :=
  match s with
  | EmptyString => false
  | String c' s' => Ascii.eqb c c' || contains_char c s'
  end.

Definition repr_char (q c : ascii) : string :=
  let n := N_of_ascii c in
  if Ascii.eqb c backslash then String backslash (String backslash "")
  else if Ascii.eqb c q then String backslash (String q "")
  else if (n =? 9)%N then String backslash "t"
  else if (n =? 10)%N then String backslash "n"
  else if (n =? 13)%N then String backslash "r"
  else if printable c then String c ""
  else String backslash
         (String "x" (String (hex_digit (n / 16)) (String (hex_digit (n mod 16)) ""))).

Fixpoint repr_chars (q : ascii) (s : string) : string :=
  match s with
  | EmptyString => EmptyString
  | String c s' => repr_char q c +:+ repr_chars q s'
  end.

Definition repr_str (s : string) : string :=
  let q := if contains_char squote s && negb (contains_char dquote s)
           then dquote else squote in
  String q (repr_chars q s +:+ String q "").

Fixpoint join (sep : string) (l : list string) : string :=
  match l with
  | [] => ""
  | [x] => x
  | x :: l' => x +:+ sep +:+ join sep l'
  end.

Fixpoint py_repr (v : value) : string :=
  match v with
  | PNone => "None"
  | PBool true => "True"
  | PBool false => "False"
  | PInt z => pretty z
  | PStr s => repr_str s
  | PList l => "[" +:+ join ", " (List.map py_repr l) +:+ "]"
  | PDict d =>
      "{" +:+ join ", " (List.map (fun kv => let '(k, x) := kv in
                                             py_repr k +:+ ": " +:+ py_repr x) d)
          +:+ "}"
  end.

(** [str(v)] *)
Definition py_str (v : value) : string :=
  match v with
  | PStr s => s
  | _ => py_repr v
  end.

(** *** [dict.get], [list()] *)

Fixpoint dict_lookup (d : list (value * value)) (key : string) : option value :=
  match d with
  | [] => None
  | (PStr k, x) :: d' => if String.eqb k key then Some x else dict_lookup d' key
  | _ :: d' => dict_lookup d' key
  end.

(** [o.get(key, default)]; only dictionaries have the method. *)
Definition py_get (o : value) (key : string) (default : value) : result value :=
  match o with
  | PDict d => Ok (match dict_lookup d key with Some x => x | None => default end)
  | _ => Raise AttributeError
  end.

(** [isinstance(v, dict)] *)
Definition is_dict (v : value) : bool :=
  match v with
  | PDict _ => true
  | _ => false
  end.

(** [list(v)]: a copy of a list, the characters of a string, the keys of a
    dictionary; other objects are not iterable. *)
Definition py_list (v : value) : result (list value) :=
  match v with
  | PList l => Ok l
  | PStr s => Ok (List.map (fun c => PStr (String c "")) (list_ascii_of_string s))
  | PDict d => Ok (List.map fst d)
  | _ => Raise TypeError
  end.

(** ** Orderings: strings by code point, paths by their parts *)

(** Python's sequence comparison: the first differing item decides, a proper
    prefix is smaller. *)
Fixpoint lex_compare {A : Type} (cmp : A -> A -> comparison) (l1 l2 : list A)
    : comparison :=
  match l1, l2 with
  | [], [] => Eq
  | [], _ :: _ => Lt
  | _ :: _, [] => Gt
  | x1 :: l1', x2 :: l2' =>
      match cmp x1 x2 with
      | Eq => lex_compare cmp l1' l2'
      | c => c
      end
  end.

(** [str.__lt__]: by code point, character after character. *)
Definition str_compare (s1 s2 : string) : comparison :=
  lex_compare Ascii.compare (list_ascii_of_string s1) (list_ascii_of_string s2).

(** ** pathlib *)

(** A [PurePosixPath] is its tuple of parts; the root, when there is one, is
    the first part.  Equality, hashing and ordering of paths are those of
    the parts. *)
Abbreviation Path := (list string).

Definition Path_compare (p q : Path) : comparison := lex_compare str_compare p q.

(** [p < q] *)
Definition Path_ltb (p q : Path) : bool :=
  match Path_compare p q with Lt => true | _ => false end.

Definition Path_lt (p q : Path) : Prop := Path_ltb p q = true.

(** What [sorted] tests to keep [p] before [q]: not [q < p]. *)
Definition Path_le (p q : Path) : Prop := Path_ltb q p = false.

#[global] Instance Path_le_dec p q : Decision (Path_le p q).
Proof. unfold Path_le. apply _. Defined.

#[global] Instance Path_lt_dec p q : Decision (Path_lt p q).
Proof. unfold Path_lt. apply _. Defined.

(** [PurePosixPath(s)]: split at slashes, drop empty and [.] components,
    keep a leading root ([//] when there are exactly two slashes). *)
Fixpoint split_on (sep : ascii) (s : string) : list string :=
  match s with
  | EmptyString => [""]
  | String c s' =>
      if Ascii.eqb c sep then "" :: split_on sep s'
      else match split_on sep s' with
           | [] => [String c ""]
           | x :: xs => String c x :: xs
           end
  end.

Definition posix_root (s : string) : list string :=
  match s with
  | String "/" (String "/" (String "/" _)) => ["/"]
  | String "/" (String "/" _) => ["//"]
  | String "/" _ => ["/"]
  | _ => []
  end.

Definition Path_of_str (s : string) : Path :=
  posix_root s ++
  List.filter (fun c => negb (String.eqb c "") && negb (String.eqb c "."))
              (split_on "/" s).

(** [str(p)] *)
Definition Path_str (p : Path) : string :=
  match p with
  | [] => "."
  | r :: rest =>
      if String.eqb r "/" || String.eqb r "//" then r +:+ join "/" rest
      else join "/" p
  end.

(** ** The world the module observes *)

Inductive file_kind : Type := Regular | Directory | Special.

(** What [os.stat(p)], which follows symbolic links, answers.  pathlib's
    [exists], [is_file] and [is_dir] take the errors ENOENT, ENOTDIR, EBADF
    and ELOOP for "nothing there" and let every other [OSError] through
    (permission denied on a parent directory, name too long, ...). *)
Inductive stat_result : Type :=
  | StatOk (k : file_kind)
  | StatMissing
  | StatFailed.

Record World : Type := {
  (** [os.stat(p)] *)
  w_os_stat : Path -> stat_result;
  (** [os.lstat(p)] reports a symbolic link. *)
  w_is_symlink : Path -> bool;
  (** The exception that [rglob] raises on a pattern it does not take (one
      that is not relative, a misplaced [**], a pattern of the wrong type),
      before it looks at the filesystem. *)
  w_pattern_error : value -> option exn;
  (** What the recursive walk of the directory [base] yields for a pattern,
      in enumeration order, or the exception that ends it. *)
  w_walk : Path -> value -> result (list Path);
  (** The order in which this interpreter iterates over a set of paths. *)
  w_set_iter : gset (list string) -> list Path;
  w_set_iter_perm : forall X, w_set_iter X ≡ₚ elements X;
  (** [yaml is not None]: the import at the top of the module succeeded. *)
  w_yaml : bool;
  (** Reading the text of a file opened with [open("r", encoding="utf-8")]. *)
  w_read_text : Path -> result string;
  (** [yaml.safe_load] on that text. *)
  w_safe_load : string -> result value;
  (** [p.mkdir(parents=True, exist_ok=True)] *)
  w_mkdir : Path -> result unit;
}.

(** What [stat] found, when it found something. *)
Definition w_stat (w : World) (p : Path) : option file_kind :=
  match w_os_stat w p with
  | StatOk k => Some k
  | _ => None
  end.

Definition stat_fails (w : World) (p : Path) : bool :=
  match w_os_stat w p with StatFailed => true | _ => false end.
Definition stat_exists (w : World) (p : Path) : bool :=
  match w_stat w p with Some _ => true | None => false end.
Definition stat_is_file (w : World) (p : Path) : bool :=
  match w_stat w p with Some Regular => true | _ => false end.
Definition stat_is_dir (w : World) (p : Path) : bool :=
  match w_stat w p with Some Directory => true | _ => false end.

(** What iterating [base.rglob(pattern)] yields, or the exception it
    raises: the pattern is checked first; then [is_dir(base)] is tested, and
    a base that is not a directory yields nothing; a directory is walked. *)
Definition w_rglob (w : World) (base : Path) (pattern : value) : result (list Path) :=
  match w_pattern_error w pattern with
  | Some e => Raise e
  | None =>
      if stat_fails w base then Raise OSError
      else if stat_is_dir w base then w_walk w base pattern
      else Ok []
  end.

(** ** Effects: outcome and trace of system calls *)

Inductive event : Type :=
  | EvExists (p : Path)
  | EvOpenRead (p : Path)
  | EvRglob (base : Path) (pattern : value)
  | EvIsFile (p : Path)
  | EvMkdir (p : Path).

(** The calls that change the filesystem. *)
Definition is_write (e : event) : bool :=
  match e with
  | EvMkdir _ => true
  | _ => false
  end.

Definition IO (A : Type) : Type := (list event * result A)%type.

Definition trace {A} (m : IO A) : list event := fst m.
Definition outcome {A} (m : IO A) : result A := snd m.

Definition ret {A} (a : A) : IO A := ([], Ok a).
Definition raise {A} (e : exn) : IO A := ([], Raise e).
Definition lift {A} (r : result A) : IO A := ([], r).
Definition syscall {A} (e : event) (r : result A) : IO A := ([e], r).

Definition bind {A B} (m : IO A) (k : A -> IO B) : IO B :=
  match m with
  | (t, Ok a) => let '(t', r) := k a in (t ++ t', r)
  | (t, Raise e) => (t, Raise e)
  end.

Declare Scope io_scope.
Delimit Scope io_scope with io.
Notation "'run' x <- m ; k" := (bind m (fun x => k))
  (at level 10, x name, m at level 100, k at level 200) : io_scope.
Notation "'ask' x <~ m ; k" := (result_bind m (fun x => k))
  (at level 10, x name, m at level 100, k at level 200) : io_scope.
Local Open Scope io_scope.

(** A [for] loop whose body updates the local state [s] and may raise. *)
Fixpoint for_each {A S : Type} (xs : list A) (body : A -> S -> IO S) (s : S) : IO S :=
  match xs with
  | [] => ret s
  | x :: xs' => run s' <- body x s; for_each xs' body s'
  end.

Fixpoint result_for_each {A S : Type} (xs : list A) (body : A -> S -> result S)
    (s : S) : result S :=
  match xs with
  | [] => Ok s
  | x :: xs' => ask s' <~ body x s; result_for_each xs' body s'
  end.

(** [p.exists()] and [p.is_file()]: the answer of [stat], or the [OSError]
    that pathlib does not take for an answer. *)
Definition Path_exists (w : World) (p : Path) : IO bool :=
  syscall (EvExists p)
    (if stat_fails w p then Raise OSError else Ok (stat_exists w p)).
Definition Path_is_file (w : World) (p : Path) : IO bool :=
  syscall (EvIsFile p)
    (if stat_fails w p then Raise OSError else Ok (stat_is_file w p)).
Definition Path_rglob (w : World) (base : Path) (pattern : value) : IO (list Path) :=
  syscall (EvRglob base pattern) (w_rglob w base pattern).
Definition Path_open_read (w : World) (p : Path) : IO string :=
  syscall (EvOpenRead p) (w_read_text w p).

(** [set(hits)] as this interpreter iterates it, and [sorted]. *)
Definition py_set (w : World) (hits : list Path) : list Path :=
  w_set_iter w (list_to_set hits).
Definition sorted (l : list Path) : list Path := merge_sort Path_le l.

(** ** Data classes for configuration *)

Record SourceConfig : Type := {
  path : string;
  include : list value;
}.

Definition SourceConfig_include_default : list value :=
  [PStr "*.jsonl"; PStr "*.json"; PStr "*.csv"].

(** [SourceConfig(path=p)] *)
Definition SourceConfig_new (p : string) : SourceConfig :=
  {| path := p; include := SourceConfig_include_default |}.

Record CleaningConfig : Type := {
  drop_duplicates : bool;
  trim_whitespace : bool;
  normalize_unicode : bool;
  remove_empty : bool;
  lower_keys : bool;
}.

(** [CleaningConfig()] *)
Definition CleaningConfig_default : CleaningConfig :=
  {| drop_duplicates := true; trim_whitespace := true; normalize_unicode := true;
     remove_empty := true; lower_keys := false |}.

Record ExportConfig : Type := {
  format : string;
  output_dir : string;
  filename : string;
}.

(** [ExportConfig()] *)
Definition ExportConfig_default : ExportConfig :=
  {| format := "parquet"; output_dir := "./data/processed"; filename := "dataset" |}.

Record AppConfig : Type := {
  sources : list SourceConfig;
  cleaning : CleaningConfig;
  export : ExportConfig;
}.

(** [AppConfig()] *)
Definition AppConfig_default : AppConfig :=
  {| sources := [SourceConfig_new "./data/raw"];
     cleaning := CleaningConfig_default;
     export := ExportConfig_default |}.

(** ** Utility functions *)

Definition ensure_dir (w : World) (p : Path) : IO unit :=
  syscall (EvMkdir p) (w_mkdir w p).

(** ** YAML loading *)

(** [SourceConfig(path=str(s.get("path", "./data/raw")),
                  include=list(s.get("include", [...])))] *)
Definition SourceConfig_of (s : value) : result SourceConfig :=
  ask p <~ py_get s "path" (PStr "./data/raw");
  ask i <~ py_get s "include" (PList SourceConfig_include_default);
  ask inc <~ py_list i;
  Ok {| path := py_str p; include := inc |}.

Definition parse_sources (data : value) : result (list SourceConfig) :=
  ask a <~ py_get data "sources" PNone;
  ask sources_raw <~ (if truthy a then Ok a else py_get data "source" PNone);
  match sources_raw with
  | PList l =>
      result_for_each l
        (fun s sources =>
           match s with
           | PDict _ => ask c <~ SourceConfig_of s; Ok (sources ++ [c])
           | _ => Ok sources
           end) []
  | PDict _ => ask c <~ SourceConfig_of sources_raw; Ok [c]
  | _ => Ok [SourceConfig_new "./data/raw"]
  end.

Definition parse_cleaning (data : value) : result CleaningConfig :=
  ask c <~ py_get data "cleaning" (PDict []);
  let cl := py_or c (PDict []) in
  ask dd <~ py_get cl "drop_duplicates" (PBool true);
  ask tw <~ py_get cl "trim_whitespace" (PBool true);
  ask nu <~ py_get cl "normalize_unicode" (PBool true);
  ask re <~ py_get cl "remove_empty" (PBool true);
  ask lk <~ py_get cl "lower_keys" (PBool false);
  Ok {| drop_duplicates := truthy dd; trim_whitespace := truthy tw;
        normalize_unicode := truthy nu; remove_empty := truthy re;
        lower_keys := truthy lk |}.

Definition parse_export (data : value) : result ExportConfig :=
  ask e <~ py_get data "export" (PDict []);
  let ex := py_or e (PDict []) in
  ask f <~ py_get ex "format" (PStr "parquet");
  ask o <~ py_get ex "output_dir" (PStr "./data/processed");
  ask n <~ py_get ex "filename" (PStr "dataset");
  Ok {| format := lower (py_str f); output_dir := py_str o; filename := py_str n |}.

Definition load_config (w : World) (config_path : option Path) : IO AppConfig :=
  match config_path with
  | None => ret AppConfig_default
  | Some config_path =>
      run there <- Path_exists w config_path;
      if negb there then
        raise (FileNotFoundError ("Config file not found: " +:+ Path_str config_path))
      else if negb (w_yaml w) then
        raise (RuntimeError
          "pyyaml is required to load YAML configs. Install with `pip install pyyaml`.")
      else
        run text <- Path_open_read w config_path;
        run doc <- lift (w_safe_load w text);
        let data := py_or doc (PDict []) in
        run sources <- lift (parse_sources data);
        run cleaning <- lift (parse_cleaning data);
        run export <- lift (parse_export data);
        ret {| sources := sources; cleaning := cleaning; export := export |}
  end.

(** ** File discovery (glob collect) *)

(** [src.include or ["*"]] *)
Definition include_or_star (src : SourceConfig) : list value :=
  match include src with
  | [] => [PStr "*"]
  | l => l
  end.

Definition collect_files (w : World) (sources : list SourceConfig) : IO (list Path) :=
  run hits <- for_each sources
            (fun src hits =>
               let base := Path_of_str (path src) in
               for_each (include_or_star src)
                 (fun pattern hits =>
                    run ps <- Path_rglob w base pattern;
                    for_each ps
                      (fun p hits =>
                         run f <- Path_is_file w p;
                         ret (if f then hits ++ [p] else hits))
                      hits)
                 hits)
            [];
  ret (sorted (py_set w hits)).

(** The regular files among what one [rglob] call yielded, as the [is_file]
    loop finds them: the loop raises when [stat] fails on an entry. *)
Definition files_among (w : World) (ps : list Path) : result (list Path) :=
  if existsb (stat_fails w) ps then Raise OSError
  else Ok (List.filter (stat_is_file w) ps).

(** The value of [hits] when the loops of [collect_files] end, without the
    trace: every pattern of every source appends the regular files among
    what [rglob] yields. *)
Definition gathered (w : World) (sources : list SourceConfig) : result (list Path) :=
  result_for_each sources
    (fun src hits =>
       result_for_each (include_or_star src)
         (fun pattern hits =>
            ask ps <~ w_rglob w (Path_of_str (path src)) pattern;
            ask files <~ files_among w ps;
            Ok (hits ++ files))
         hits)
    [].

(** ** Record cleaning *)

(** The module announces cleaning (dedupe, trim whitespace, normalize unicode,
    remove empties) and carries its options in [CleaningConfig], but contains
    no cleaning function.  The definitions of this section follow the text of
    the specification of [RecordCleaner.clean]. *)

(** A record: an ordered mapping from field name to value. *)
Abbreviation record := (list (string * value)).

(** Modelled from the spec: the comparison of step 5 of [RecordCleaner.clean],
    structural identity of values. *)
Fixpoint value_eqb (a b : value) : bool :=
  match a, b with
  | PNone, PNone => true
  | PBool x, PBool y => Bool.eqb x y
  | PInt x, PInt y => Z.eqb x y
  | PStr x, PStr y => String.eqb x y
  | PList l1, PList l2 =>
      (fix go (l1 l2 : list value) : bool :=
         match l1, l2 with
         | [], [] => true
         | x :: l1', y :: l2' => value_eqb x y && go l1' l2'
         | _, _ => false
         end) l1 l2
  | PDict d1, PDict d2 =>
      (fix go (d1 d2 : list (value * value)) : bool :=
         match d1, d2 with
         | [], [] => true
         | (k1, x1) :: d1', (k2, x2) :: d2' =>
             value_eqb k1 k2 && value_eqb x1 x2 && go d1' d2'
         | _, _ => false
         end) d1 d2
  | _, _ => false
  end.

(** Modelled from the spec: two records are identical when they have the
    same field names and the same values, in the same order. *)
Fixpoint record_eqb (r1 r2 : record) : bool :=
  match r1, r2 with
  | [], [] => true
  | (k1, x1) :: r1', (k2, x2) :: r2' =>
      String.eqb k1 k2 && value_eqb x1 x2 && record_eqb r1' r2'
  | _, _ => false
  end.

(** The field names of a record, in order. *)
Definition keys (r : record) : list string := List.map fst r.

(** Modelled from the spec: the field names of the dataset (its columns), in
    the order in which the records first show them; [seen] are the names
    already listed. *)
Fixpoint columns_from (seen ks : list string) : list string :=
  match ks with
  | [] => []
  | k :: ks' =>
      if existsb (String.eqb k) seen then columns_from seen ks'
      else k :: columns_from (k :: seen) ks'
  end.

Definition columns (rs : list record) : list string :=
  columns_from [] (flat_map keys rs).

(** Modelled from the spec: last-write-wins.  Going through the columns in
    order, each one is written under its lower-case name; the column found
    under [name] at the end is the last one written there. *)
Definition winner (cols : list string) (name : string) : option string :=
  fold_left (fun w c => if String.eqb (lower c) name then Some c else w) cols None.

Definition wins (cols : list string) (k : string) : bool :=
  match winner cols (lower k) with
  | Some c => String.eqb c k
  | None => false
  end.

(** Modelled from the spec: step 1 of [RecordCleaner.clean] on one record:
    every field name is rewritten to lowercase; when two names of the
    dataset collapse to the same lower-case name the later one wins, and the
    fields under the earlier names are dropped. *)
Definition lower_keys_record (cols : list string) (r : record) : record :=
  List.map (fun kx => (lower (fst kx), snd kx))
    (List.filter (fun kx => wins cols (fst kx)) r).

(** A record that had fields and lost them all to later names. *)
Definition emptied (cols : list string) (r : record) : bool :=
  match r, lower_keys_record cols r with
  | _ :: _, [] => true
  | _, _ => false
  end.

(** Modelled from the spec: step 1 of [RecordCleaner.clean], which the source
    does not contain.  A record all of whose fields are dropped goes with
    them, so that the records [{A: 1}] and [{a: 2}] give [{a: 2}], the
    example of last-write-wins in the specification. *)
Definition lower_keys_table (rs : list record) : list record :=
  List.map (lower_keys_record (columns rs))
    (List.filter (fun r => negb (emptied (columns rs) r)) rs).

(** Modelled from the spec: the whitespace of step 2 of
    [RecordCleaner.clean], Unicode whitespace on the Latin-1 range. *)
Definition is_space (c : ascii) : bool :=
  let n := N_of_ascii c in
  ((9 <=? n) && (n <=? 13) || (28 <=? n) && (n <=? 32) || (n =? 133) || (n =? 160))%N.

Fixpoint lstrip (s : string) : string :=
  match s with
  | EmptyString => EmptyString
  | String c s' => if is_space c then lstrip s' else s
  end.

Fixpoint rstrip (s : string) : string :=
  match s with
  | EmptyString => EmptyString
  | String c s' =>
      match rstrip s' with
      | EmptyString => if is_space c then EmptyString else String c EmptyString
      | r => String c r
      end
  end.

Definition strip (s : string) : string := rstrip (lstrip s).

(** Modelled from the spec: steps 2 and 3 of [RecordCleaner.clean] apply a
    function to every string-valued field. *)
Definition on_string (f : string -> string) (x : value) : value :=
  match x with
  | PStr s => PStr (f s)
  | _ => x
  end.

Definition map_strings (f : string -> string) (r : record) : record :=
  List.map (fun kx => (fst kx, on_string f (snd kx))) r.

(** Modelled from the spec: step 4 of [RecordCleaner.clean].  Empty string and
    null count as empty (an absent field has no entry). *)
Definition is_empty_value (x : value) : bool :=
  match x with
  | PNone => true
  | PStr EmptyString => true
  | _ => false
  end.

Definition record_is_empty (r : record) : bool :=
  forallb (fun kx => is_empty_value (snd kx)) r.

(** Modelled from the spec: step 5 of [RecordCleaner.clean], keeping the first
    occurrence of every record, [seen] being the records already kept. *)
Fixpoint drop_duplicates_from (seen rs : list record) : list record :=
  match rs with
  | [] => []
  | r :: rs' =>
      if existsb (record_eqb r) seen then drop_duplicates_from seen rs'
      else r :: drop_duplicates_from (r :: seen) rs'
  end.

(** Modelled from the spec: [RecordCleaner.clean], which the source does not
    contain: the enabled transforms in the fixed order lower_keys,
    trim_whitespace, normalize_unicode, remove_empty, drop_duplicates.  The
    canonical composed normalisation of a string is the parameter [nfc]. *)
Definition clean (nfc : string -> string) (records : list record)
    (options : CleaningConfig) : list record :=
  let rs1 := if lower_keys options then lower_keys_table records
             else records in
  let rs2 := if trim_whitespace options then List.map (map_strings strip) rs1
             else rs1 in
  let rs3 := if normalize_unicode options then List.map (map_strings nfc) rs2
             else rs2 in
  let rs4 := if remove_empty options
             then List.filter (fun r => negb (record_is_empty r)) rs3
             else rs3 in
  if drop_duplicates options then drop_duplicates_from [] rs4 else rs4.


(** A string that does not begin with whitespace. *)
Definition starts_clean (s : string) : Prop :=
  match s with
  | EmptyString => True
  | String c _ => is_space c = false
  end.

(** A field name that lower-casing leaves as it is. *)
Definition lower_case (k : string) : Prop := lower k = k.

(** A record on which the enabled per-field steps of [clean] change
    nothing. *)
Definition settled (nfc : string -> string) (options : CleaningConfig)
    (r : record) : Prop :=
  (lower_keys options = true -> Forall lower_case (keys r))
  /\ (trim_whitespace options = true -> map_strings strip r = r)
  /\ (normalize_unicode options = true -> map_strings nfc r = r).

(** ** Calls that go through, and two views of one tree *)

(** Two outcomes agree up to [R]: both return, with related values, or both
    raise the same exception. *)
Definition agree {S : Type} (R : S -> S -> Prop) (r1 r2 : result S) : Prop :=
  match r1, r2 with
  | Ok a, Ok b => R a b
  | Raise e1, Raise e2 => e1 = e2
  | _, _ => False
  end.

Definition same_elements (l1 l2 : list Path) : Prop := forall p, p ∈ l1 <-> p ∈ l2.

(** One [rglob] call and the [is_file] tests on what it yields go through:
    neither raises. *)
Definition job_returns (w : World) (base : Path) (pattern : value) : Prop :=
  exists ps, w_rglob w base pattern = Ok ps
             /\ Forall (fun p => stat_fails w p = false) ps.

(** Two observations of one unchanged directory tree: the same answer of
    [stat] everywhere and, for every root and pattern, the same entries from
    [rglob] (or the same exception), in whatever order each enumeration
    lists them.  Nothing relates the two set iteration orders. *)
Definition same_tree (w1 w2 : World) : Prop :=
  (forall p, w_os_stat w1 p = w_os_stat w2 p) /\
  (forall base pattern,
      agree same_elements (w_rglob w1 base pattern) (w_rglob w2 base pattern)).

(** ** A small concrete world *)

(** A directory tree with a configuration directory and a raw-data
    directory; [dir.csv] is a directory and [link.csv] a symbolic link to
    it, and both match the pattern [*.csv].  [logs] holds two directories
    whose names differ by a suffix; [vault] can be listed but not searched:
    [stat] fails on everything below it. *)
Definition demo_tree : list (Path * (file_kind * bool)) :=
  [ (["conf"], (Directory, false));
    (["conf"; "empty.yaml"], (Regular, false));
    (["conf"; "xml.yaml"], (Regular, false));
    (["conf"; "scalars.yaml"], (Regular, false));
    (["data"], (Directory, false));
    (["data"; "raw"], (Directory, false));
    (["data"; "raw"; "b.json"], (Regular, false));
    (["data"; "raw"; "a.csv"], (Regular, false));
    (["data"; "raw"; "dir.csv"], (Directory, false));
    (["data"; "raw"; "link.csv"], (Directory, true));
    (["data"; "raw"; "sub"], (Directory, false));
    (["data"; "raw"; "sub"; "c.csv"], (Regular, false));
    (["logs"], (Directory, false));
    (["logs"; "a"], (Directory, false));
    (["logs"; "a"; "x.csv"], (Regular, false));
    (["logs"; "a.d"], (Directory, false));
    (["logs"; "a.d"; "x.csv"], (Regular, false));
    (["vault"], (Directory, false));
    (["vault"; "secret.csv"], (Regular, false)) ].

Fixpoint demo_find (p : Path) (t : list (Path * (file_kind * bool)))
    : option (file_kind * bool) :=
  match t with
  | [] => None
  | (q, k) :: t' => if bool_decide (p = q) then Some k else demo_find p t'
  end.

Definition demo_stat (p : Path) : option file_kind := fst <$> demo_find p demo_tree.
Definition demo_is_symlink (p : Path) : bool :=
  match demo_find p demo_tree with Some (_, b) => b | None => false end.

Definition has_suffix (suf s : string) : bool :=
  (String.length suf <=? String.length s)%nat &&
  String.eqb (substring (String.length s - String.length suf) (String.length suf) s) suf.

(** Patterns of the shapes [*], [*suffix] and [name]. *)
Definition demo_match (pat name : string) : bool :=
  match pat with
  | String "*" suf => has_suffix suf name
  | _ => String.eqb pat name
  end.

Fixpoint strictly_below (base p : Path) : bool :=
  match base, p with
  | [], _ :: _ => true
  | b :: base', c :: p' => String.eqb b c && strictly_below base' p'
  | _, _ => false
  end.

Definition demo_os_stat (p : Path) : stat_result :=
  if strictly_below ["vault"] p then StatFailed
  else match demo_stat p with
       | Some k => StatOk k
       | None => StatMissing
       end.

Definition demo_pattern_error (pattern : value) : option exn :=
  match pattern with
  | PStr pat => if String.prefix "/" pat then Some NotImplementedError else None
  | _ => Some TypeError
  end.

Definition demo_walk (base : Path) (pattern : value) : result (list Path) :=
  match pattern with
  | PStr pat =>
      Ok (List.filter
            (fun p => strictly_below base p && demo_match pat (List.last p ""))
            (List.map fst demo_tree))
  | _ => Ok []
  end.

Definition demo_read_text (p : Path) : result string :=
  if bool_decide (p = ["conf"; "empty.yaml"]) then Ok ""
  else if bool_decide (p = ["conf"; "xml.yaml"]) then Ok "export: {format: XML}"
  else if bool_decide (p = ["conf"; "scalars.yaml"]) then Ok "sources: [1, two]"
  else Raise OSError.

Definition demo_safe_load (text : string) : result value :=
  if String.eqb text "" then Ok PNone
  else if String.eqb text "export: {format: XML}" then
    Ok (PDict [(PStr "export", PDict [(PStr "format", PStr "XML")])])
  else if String.eqb text "sources: [1, two]" then
    Ok (PDict [(PStr "sources", PList [PInt 1; PStr "two"])])
  else Raise YAMLError.

Definition demo_world : World :=
  {| w_os_stat := demo_os_stat;
     w_is_symlink := demo_is_symlink;
     w_pattern_error := demo_pattern_error;
     w_walk := demo_walk;
     w_set_iter := elements;
     w_set_iter_perm := fun X => Permutation_refl (elements X);
     w_yaml := true;
     w_read_text := demo_read_text;
     w_safe_load := demo_safe_load;
     w_mkdir := fun _ => Ok tt |}.

(** The same tree seen by another interpreter: directories are listed, and
    sets iterated, in the opposite order. *)
Definition demo_world_rev : World :=
  {| w_os_stat := demo_os_stat;
     w_is_symlink := demo_is_symlink;
     w_pattern_error := demo_pattern_error;
     w_walk := fun base pattern =>
       match demo_walk base pattern with
       | Ok l => Ok (List.rev l)
       | Raise e => Raise e
       end;
     w_set_iter := fun X => List.rev (elements X);
     w_set_iter_perm := fun X => Permutation_sym (Permutation_rev (elements X));
     w_yaml := true;
     w_read_text := demo_read_text;
     w_safe_load := demo_safe_load;
     w_mkdir := fun _ => Ok tt |}.

(** The same world without the YAML library. *)
Definition demo_world_no_yaml : World :=
  {| w_os_stat := demo_os_stat;
     w_is_symlink := demo_is_symlink;
     w_pattern_error := demo_pattern_error;
     w_walk := demo_walk;
     w_set_iter := elements;
     w_set_iter_perm := fun X => Permutation_refl (elements X);
     w_yaml := false;
     w_read_text := demo_read_text;
     w_safe_load := demo_safe_load;
     w_mkdir := fun _ => Ok tt |}.

Definition demo_sources : list SourceConfig :=
  [ {| path := "./data/raw"; include := [PStr "*.csv"; PStr "*"] |};
    {| path := "./data/raw/sub"; include := [] |} ].

Definition demo_sources_missing : list SourceConfig :=
  [ {| path := "./data/raw"; include := [PStr "*.csv"] |};
    {| path := "./data/absent"; include := [PStr "*.csv"; PStr "*.json"] |};
    {| path := "./data/raw/sub"; include := [] |} ].

(** ** Vocabulary for the further properties *)

(** [d.get(key)]: the value under [key], [None] when the key is absent. *)
Definition dict_get (d : list (value * value)) (key : string) : value :=
  match dict_lookup d key with
  | Some x => x
  | None => PNone
  end.

(** The objects [list()] accepts. *)
Definition is_iterable (v : value) : bool :=
  match v with
  | PStr _ | PList _ | PDict _ => true
  | _ => false
  end.

(** The characters of a string, as [list(s)] returns them. *)
Definition characters (s : string) : list value :=
  List.map (fun c => PStr (String c "")) (list_ascii_of_string s).

(** The top-level keys that [load_config] reads. *)
Definition known_keys : list string := ["sources"; "source"; "cleaning"; "export"].

(** The fields of [CleaningConfig], and [getattr(c, name)] on them. *)
Definition cleaning_flags : list string :=
  ["drop_duplicates"; "trim_whitespace"; "normalize_unicode"; "remove_empty"; "lower_keys"].

Definition CleaningConfig_flag (c : CleaningConfig) (name : string) : option bool :=
  if String.eqb name "drop_duplicates" then Some (drop_duplicates c)
  else if String.eqb name "trim_whitespace" then Some (trim_whitespace c)
  else if String.eqb name "normalize_unicode" then Some (normalize_unicode c)
  else if String.eqb name "remove_empty" then Some (remove_empty c)
  else if String.eqb name "lower_keys" then Some (lower_keys c)
  else None.

(** The [rglob] calls that [collect_files] makes when none raises: one for
    every pattern of every source, in order. *)
Definition jobs (sources : list SourceConfig) : list (Path * value) :=
  flat_map (fun src => List.map (fun pattern => (Path_of_str (path src), pattern))
                         (include_or_star src))
           sources.

(** What one call contributes to [hits], or the exception that it or an
    [is_file] test on what it yields raises. *)
Definition job_result (w : World) (job : Path * value) : result (list Path) :=
  ask ps <~ w_rglob w (fst job) (snd job);
  files_among w ps.

Definition yield_of (w : World) (job : Path * value) : list Path :=
  match job_result w job with
  | Ok files => files
  | Raise _ => []
  end.

(** A world with one configuration file, [config.yaml], whose text parses
    to [parsed], and no other file. *)
Definition document_world (parsed : result value) : World :=
  {| w_os_stat := fun p => if bool_decide (p = ["config.yaml"]) then StatOk Regular
                           else StatMissing;
     w_is_symlink := fun _ => false;
     w_pattern_error := fun _ => None;
     w_walk := fun _ _ => Ok [];
     w_set_iter := elements;
     w_set_iter_perm := fun X => Permutation_refl (elements X);
     w_yaml := true;
     w_read_text := fun p => if bool_decide (p = ["config.yaml"]) then Ok "..."
                             else Raise OSError;
     w_safe_load := fun _ => parsed;
     w_mkdir := fun _ => Ok tt |}.

(** * Properties *)

(** ** The orderings are strict total orders *)

Section lex_compare_laws.
Context {A : Type} (cmp : A -> A -> comparison).
Hypothesis cmp_eq : forall x y, cmp x y = Eq <-> x = y.
Hypothesis cmp_antisym : forall x y, cmp y x = CompOpp (cmp x y).
Hypothesis cmp_trans : forall x y z, cmp x y = Lt -> cmp y z = Lt -> cmp x z = Lt.

Lemma lex_compare_eq l1 l2 : lex_compare cmp l1 l2 = Eq <-> l1 = l2.
Proof.
  revert l2; induction l1 as [|x1 l1 IH]; intros [|x2 l2]; simpl; try easy.
  destruct (cmp x1 x2) eqn:E.
  - apply cmp_eq in E; subst. rewrite IH. split; congruence.
  - split; [easy|]. intros [= -> _]. assert (cmp x2 x2 = Eq) by now apply cmp_eq.
    congruence.
  - split; [easy|]. intros [= -> _]. assert (cmp x2 x2 = Eq) by now apply cmp_eq.
    congruence.
Qed.

Lemma lex_compare_antisym l1 l2 :
  lex_compare cmp l2 l1 = CompOpp (lex_compare cmp l1 l2).
Proof.
  revert l2; induction l1 as [|x1 l1 IH]; intros [|x2 l2]; simpl; try easy.
  rewrite (cmp_antisym x1 x2). destruct (cmp x1 x2); simpl; auto.
Qed.

Lemma lex_compare_trans l1 l2 l3 :
  lex_compare cmp l1 l2 = Lt -> lex_compare cmp l2 l3 = Lt ->
  lex_compare cmp l1 l3 = Lt.
Proof.
  revert l2 l3; induction l1 as [|x1 l1 IH]; intros [|x2 l2] [|x3 l3];
    simpl; try easy.
  destruct (cmp x1 x2) eqn:E12; try easy.
  - apply cmp_eq in E12; subst x2.
    destruct (cmp x1 x3); try easy. apply IH.
  - destruct (cmp x2 x3) eqn:E23; try easy.
    + apply cmp_eq in E23; subst x3. now rewrite E12.
    + now rewrite (cmp_trans _ _ _ E12 E23).
Qed.
End lex_compare_laws.

Lemma ascii_compare_eq (a b : ascii) : Ascii.compare a b = Eq <-> a = b.
Proof.
  split; [apply Ascii.compare_eq_iff|].
  intros ->. unfold Ascii.compare. apply N.compare_refl.
Qed.

Lemma ascii_compare_trans (a b c : ascii) :
  Ascii.compare a b = Lt -> Ascii.compare b c = Lt -> Ascii.compare a c = Lt.
Proof. unfold Ascii.compare. rewrite !N.compare_lt_iff. lia. Qed.

Lemma ascii_compare_antisym (a b : ascii) :
  Ascii.compare b a = CompOpp (Ascii.compare a b).
Proof. apply Ascii.compare_antisym. Qed.

Lemma list_ascii_of_string_inj s1 s2 :
  list_ascii_of_string s1 = list_ascii_of_string s2 -> s1 = s2.
Proof.
  intros H. rewrite <- (string_of_list_ascii_of_string s1),
    <- (string_of_list_ascii_of_string s2). now rewrite H.
Qed.

Lemma str_compare_eq s1 s2 : str_compare s1 s2 = Eq <-> s1 = s2.
Proof.
  unfold str_compare. rewrite (lex_compare_eq _ ascii_compare_eq).
  split; [apply list_ascii_of_string_inj | congruence].
Qed.

Lemma str_compare_antisym s1 s2 : str_compare s2 s1 = CompOpp (str_compare s1 s2).
Proof. apply lex_compare_antisym, ascii_compare_antisym. Qed.

Lemma str_compare_trans s1 s2 s3 :
  str_compare s1 s2 = Lt -> str_compare s2 s3 = Lt -> str_compare s1 s3 = Lt.
Proof.
  apply (lex_compare_trans _ ascii_compare_eq ascii_compare_trans).
Qed.

Lemma Path_compare_eq p q : Path_compare p q = Eq <-> p = q.
Proof. apply lex_compare_eq, str_compare_eq. Qed.

Lemma Path_compare_antisym p q : Path_compare q p = CompOpp (Path_compare p q).
Proof. apply lex_compare_antisym, str_compare_antisym. Qed.

Lemma Path_compare_trans p q r :
  Path_compare p q = Lt -> Path_compare q r = Lt -> Path_compare p r = Lt.
Proof.
  apply (lex_compare_trans _ str_compare_eq str_compare_trans).
Qed.

Lemma Path_lt_compare p q : Path_lt p q <-> Path_compare p q = Lt.
Proof. unfold Path_lt, Path_ltb. destruct (Path_compare p q); easy. Qed.

Lemma Path_le_compare p q : Path_le p q <-> Path_compare p q <> Gt.
Proof.
  unfold Path_le, Path_ltb. rewrite (Path_compare_antisym p q).
  destruct (Path_compare p q); simpl; easy.
Qed.

#[global] Instance Path_lt_strict : StrictOrder Path_lt.
Proof.
  split.
  - intros p H. apply Path_lt_compare in H.
    assert (Path_compare p p = Eq) by now apply Path_compare_eq. congruence.
  - intros p q r. rewrite !Path_lt_compare. apply Path_compare_trans.
Qed.

#[global] Instance Path_le_total : Total Path_le.
Proof.
  intros p q. rewrite !Path_le_compare, (Path_compare_antisym p q).
  destruct (Path_compare p q); simpl; auto; left || right; easy.
Qed.

Lemma Path_le_lt_eq p q : Path_le p q <-> Path_lt p q \/ p = q.
Proof.
  rewrite Path_le_compare, Path_lt_compare, <- Path_compare_eq.
  destruct (Path_compare p q); intuition congruence.
Qed.

#[global] Instance Path_le_trans : Transitive Path_le.
Proof.
  intros p q r. rewrite !Path_le_lt_eq. intros [H1| ->] [H2| ->]; auto.
  left. now transitivity q.
Qed.

#[global] Instance Path_le_antisym : AntiSymm (=) Path_le.
Proof.
  intros p q. rewrite !Path_le_lt_eq. intros [H1| ->] [H2|H2]; auto.
  exfalso. apply (irreflexivity Path_lt p). now transitivity q.
Qed.


(** The order of paths is by parts, which is not the order of the path
    strings: [a/x] comes before [a.d/x], although as strings the period sorts
    before the slash. *)
Example Path_order_is_by_parts :
  Path_ltb ["a"; "x"] ["a.d"; "x"] = true
  /\ str_compare (Path_str ["a"; "x"]) (Path_str ["a.d"; "x"]) = Gt.
Proof. split; reflexivity. Qed.

(** ** Outcome and trace of sequenced computations *)

Lemma outcome_bind {A B} (m : IO A) (k : A -> IO B) :
  outcome (bind m k) =
  match outcome m with
  | Ok a => outcome (k a)
  | Raise e => Raise e
  end.
Proof. destruct m as [t [a|e]]; simpl; [destruct (k a)|]; reflexivity. Qed.


(** Once a computation has raised, nothing sequenced after it runs. *)
Lemma bind_raise {A B} (t : list event) (e : exn) (k : A -> IO B) :
  bind (t, Raise e) k = (t, Raise e).
Proof. reflexivity. Qed.

Lemma dict_lookup_nonempty d key x : dict_lookup d key = Some x -> truthy (PDict d) = true.
Proof. destruct d; [discriminate | reflexivity]. Qed.

Lemma lower_char_idem c : lower_char (lower_char c) = lower_char c.
Proof. destruct c as [[] [] [] [] [] [] [] []]; reflexivity. Qed.

Lemma lower_idem s : lower (lower s) = lower s.
Proof. induction s as [|c s IH]; simpl; [|rewrite lower_char_idem, IH]; reflexivity. Qed.

(** ** load_config *)

(** C1. Without a configuration path, [load_config] touches nothing and
    returns the all-defaults [AppConfig]: one source [./data/raw] with the
    include patterns [*.jsonl], [*.json], [*.csv]; every cleaning flag true
    except [lower_keys]; export format [parquet], output directory
    [./data/processed], file name [dataset]. *)
Theorem load_config_None_defaults (w : World) :
  load_config w None =
  ([], Ok {| sources := [ {| path := "./data/raw";
                            include := [PStr "*.jsonl"; PStr "*.json"; PStr "*.csv"] |} ];
            cleaning := {| drop_duplicates := true; trim_whitespace := true;
                           normalize_unicode := true; remove_empty := true;
                           lower_keys := false |};
            export := {| format := "parquet"; output_dir := "./data/processed";
                         filename := "dataset" |} |}).
Proof. reflexivity. Qed.

Lemma stat_exists_not_fails (w : World) (p : Path) :
  stat_exists w p = true -> stat_fails w p = false.
Proof. unfold stat_exists, stat_fails, w_stat. now destruct (w_os_stat w p). Qed.

(** C6, as stated, fails: a configuration path under a directory that cannot
    be searched names no file, and [load_config] raises the [OSError] of the
    existence test, not [FileNotFoundError]. *)
Lemma load_config_unsearchable_parent :
  demo_find ["vault"; "config.yaml"] demo_tree = None /\
  load_config demo_world (Some ["vault"; "config.yaml"]) =
    ([EvExists ["vault"; "config.yaml"]], Raise OSError).
Proof. split; reflexivity. Qed.

(** C6, amended. When the existence test on the configuration path does not
    answer yes, [load_config] fails at once: with [FileNotFoundError] naming
    the path when [stat] reports that nothing is there, with the [OSError]
    of [stat] when that is what the test raises.  Either way the existence
    test is the only system call made (the file is not opened, the YAML
    library is not even looked for), and whatever is sequenced after
    [load_config] does not run. *)
Theorem load_config_missing_file (w : World) (p : Path) :
  stat_exists w p = false ->
  load_config w (Some p) =
    ([EvExists p],
     Raise (if stat_fails w p then OSError
            else FileNotFoundError ("Config file not found: " +:+ Path_str p)))
  /\ forall (B : Type) (k : AppConfig -> IO B),
       bind (load_config w (Some p)) k =
       ([EvExists p],
        Raise (if stat_fails w p then OSError
               else FileNotFoundError ("Config file not found: " +:+ Path_str p))).
Proof.
  intros Hmissing.
  assert (load_config w (Some p) =
          ([EvExists p],
           Raise (if stat_fails w p then OSError
                  else FileNotFoundError ("Config file not found: " +:+ Path_str p))))
    as E.
  { unfold load_config, Path_exists, syscall, bind.
    destruct (stat_fails w p); [reflexivity|]. now rewrite Hmissing. }
  split; [exact E|]. intros B k. rewrite E. apply bind_raise.
Qed.

Lemma load_config_missing_file_witness :
  load_config demo_world_no_yaml (Some ["conf"; "nope.yaml"]) =
    ([EvExists ["conf"; "nope.yaml"]],
     Raise (FileNotFoundError "Config file not found: conf/nope.yaml"))
  /\ forall (B : Type) (k : AppConfig -> IO B),
       bind (load_config demo_world_no_yaml (Some ["conf"; "nope.yaml"])) k =
       ([EvExists ["conf"; "nope.yaml"]],
        Raise (FileNotFoundError "Config file not found: conf/nope.yaml")).
Proof.
  apply (load_config_missing_file demo_world_no_yaml ["conf"; "nope.yaml"]).
  reflexivity.
Defined.

(** What [load_config] does once the document has been read and parsed. *)
Lemma load_config_parsed (w : World) (p : Path) (text : string) (doc : value) :
  stat_exists w p = true ->
  w_yaml w = true ->
  w_read_text w p = Ok text ->
  w_safe_load w text = Ok doc ->
  load_config w (Some p) =
  ([EvExists p; EvOpenRead p],
   ask srcs <~ parse_sources (py_or doc (PDict []));
   ask cl <~ parse_cleaning (py_or doc (PDict []));
   ask ex <~ parse_export (py_or doc (PDict []));
   Ok {| sources := srcs; cleaning := cl; export := ex |}).
Proof.
  intros Hex Hyaml Hread Hload.
  unfold load_config, Path_exists, Path_open_read, syscall, lift, bind, ret.
  rewrite (stat_exists_not_fails w p Hex), Hex, Hyaml, Hread, Hload. simpl.
  destruct (parse_sources _); simpl; [|reflexivity].
  destruct (parse_cleaning _); simpl; [|reflexivity].
  destruct (parse_export _); reflexivity.
Qed.

(** C10. A configuration file that exists and parses to an empty or null
    structure (null, an empty mapping, an empty sequence, an empty string:
    any document that [or] treats as false) gives the [AppConfig] that
    [load_config(None)] gives, and no error. *)
Theorem load_config_empty_document (w : World) (p : Path) (text : string) (doc : value) :
  stat_exists w p = true ->
  w_yaml w = true ->
  w_read_text w p = Ok text ->
  w_safe_load w text = Ok doc ->
  truthy doc = false ->
  outcome (load_config w (Some p)) = outcome (load_config w None)
  /\ outcome (load_config w (Some p)) = Ok AppConfig_default.
Proof.
  intros Hex Hyaml Hread Hload Hempty.
  rewrite (load_config_parsed w p text doc Hex Hyaml Hread Hload).
  unfold py_or. rewrite Hempty. split; reflexivity.
Qed.

Lemma load_config_empty_document_witness :
  outcome (load_config demo_world (Some ["conf"; "empty.yaml"])) =
  outcome (load_config demo_world None).
Proof.
  apply (load_config_empty_document demo_world ["conf"; "empty.yaml"] "" PNone);
    reflexivity.
Defined.




Lemma result_for_each_skip {A S : Type} (xs : list A) (body : A -> S -> result S) (s : S) :
  Forall (fun x => forall s, body x s = Ok s) xs ->
  result_for_each xs body s = Ok s.
Proof.
  induction 1 as [|x xs Hx _ IH]; simpl; [reflexivity|]. now rewrite Hx.
Qed.

(** C4, on the code. When [sources] holds a non-empty list none of whose
    entries is a mapping, [load_config] returns a configuration whose list of
    sources is empty: the fall-back to the default source is not taken. *)
Theorem load_config_list_without_mappings
    (w : World) (p : Path) (text : string) (d : list (value * value)) (l : list value) :
  stat_exists w p = true ->
  w_yaml w = true ->
  w_read_text w p = Ok text ->
  w_safe_load w text = Ok (PDict d) ->
  dict_lookup d "sources" = Some (PList l) ->
  l <> [] ->
  Forall (fun s => is_dict s = false) l ->
  outcome (load_config w (Some p)) =
    (ask cl <~ parse_cleaning (PDict d);
     ask ex <~ parse_export (PDict d);
     Ok {| sources := []; cleaning := cl; export := ex |}).
Proof.
  intros Hex Hyaml Hread Hload Hsources Hne Hscalars.
  pose proof (dict_lookup_nonempty _ _ _ Hsources) as Hd.
  rewrite (load_config_parsed w p text (PDict d) Hex Hyaml Hread Hload).
  unfold py_or. rewrite Hd. unfold outcome, snd.
  assert (parse_sources (PDict d) = Ok []) as ->; [|reflexivity].
  unfold parse_sources, py_get. rewrite Hsources.
  destruct l as [|s0 l0]; [congruence|]. cbn [result_bind truthy].
  apply result_for_each_skip.
  eapply Forall_impl; [exact Hscalars|]. intros [] H st; simpl in *; congruence.
Qed.

Lemma load_config_list_without_mappings_witness :
  outcome (load_config demo_world (Some ["conf"; "scalars.yaml"])) =
  Ok {| sources := []; cleaning := CleaningConfig_default;
        export := ExportConfig_default |}.
Proof.
  apply (load_config_list_without_mappings demo_world ["conf"; "scalars.yaml"]
           "sources: [1, two]" [(PStr "sources", PList [PInt 1; PStr "two"])]
           [PInt 1; PStr "two"]); try reflexivity.
  - discriminate.
  - repeat constructor.
Defined.

(** The fall-back that C4 describes is taken in the other cases: when neither
    [sources] nor [source] holds a true value, or the value is neither a list
    nor a mapping, the sources are the one default source. *)
Lemma parse_sources_fallback (d : list (value * value)) (a b : value) :
  py_get (PDict d) "sources" PNone = Ok a ->
  py_get (PDict d) "source" PNone = Ok b ->
  match py_or a b with PList _ | PDict _ => False | _ => True end ->
  parse_sources (PDict d) = Ok [SourceConfig_new "./data/raw"].
Proof.
  intros Ha Hb Hshape. unfold parse_sources. rewrite Ha. cbn [result_bind].
  unfold py_or in Hshape. destruct (truthy a) eqn:Ta.
  - cbn [result_bind]. destruct a; simpl in *; try reflexivity; contradiction.
  - rewrite Hb. cbn [result_bind]. destruct b; simpl in *; try reflexivity; contradiction.
Qed.

(** ** Loops *)

Lemma for_each_outcome {A S : Type} (xs : list A) (body : A -> S -> IO S)
    (rbody : A -> S -> result S) (s : S) :
  (forall x s, outcome (body x s) = rbody x s) ->
  outcome (for_each xs body s) = result_for_each xs rbody s.
Proof.
  intros Hbody. revert s. induction xs as [|x xs IH]; intros s; simpl; [reflexivity|].
  rewrite outcome_bind, Hbody. destruct (rbody x s); simpl; auto.
Qed.


Lemma result_for_each_app {A S : Type} (xs ys : list A) (body : A -> S -> result S) (s : S) :
  result_for_each (xs ++ ys) body s =
  (ask s' <~ result_for_each xs body s; result_for_each ys body s').
Proof.
  revert s. induction xs as [|x xs IH]; intros s; simpl; [reflexivity|].
  destruct (body x s); simpl; auto.
Qed.

Lemma result_for_each_inv {A S : Type} (P : S -> Prop) (xs : list A)
    (body : A -> S -> result S) (s s' : S) :
  (forall x s s', P s -> body x s = Ok s' -> P s') ->
  P s -> result_for_each xs body s = Ok s' -> P s'.
Proof.
  intros Hbody. revert s. induction xs as [|x xs IH]; intros s Hs; simpl.
  - now intros [= <-].
  - destruct (body x s) as [s1|e] eqn:E; simpl; [|discriminate]. eauto.
Qed.

Lemma result_for_each_agree {A S : Type} (R : S -> S -> Prop) (xs : list A)
    (body1 body2 : A -> S -> result S) (s1 s2 : S) :
  (forall x s1 s2, R s1 s2 -> agree R (body1 x s1) (body2 x s2)) ->
  R s1 s2 ->
  agree R (result_for_each xs body1 s1) (result_for_each xs body2 s2).
Proof.
  intros Hbody. revert s1 s2. induction xs as [|x xs IH]; intros s1 s2 HR; simpl; [exact HR|].
  specialize (Hbody x s1 s2 HR).
  destruct (body1 x s1), (body2 x s2); simpl in *; auto; contradiction.
Qed.

(** ** collect_files *)

Lemma is_file_step (w : World) (p : Path) (hits : list Path) :
  outcome (run f <- Path_is_file w p; ret (if f then hits ++ [p] else hits))
  = if stat_fails w p then Raise OSError
    else Ok (if stat_is_file w p then hits ++ [p] else hits).
Proof.
  unfold Path_is_file, syscall, bind, ret, outcome.
  destruct (stat_fails w p); reflexivity.
Qed.

Lemma is_file_loop_outcome (w : World) (ps hits : list Path) :
  outcome (for_each ps
             (fun p hits => run f <- Path_is_file w p;
                            ret (if f then hits ++ [p] else hits)) hits)
  = (ask files <~ files_among w ps; Ok (hits ++ files)).
Proof.
  unfold files_among.
  revert hits. induction ps as [|p ps IH]; intros hits; cbn [for_each existsb List.filter].
  - simpl. now rewrite app_nil_r.
  - rewrite outcome_bind, is_file_step.
    destruct (stat_fails w p); [reflexivity|]. cbn [orb]. rewrite IH.
    destruct (existsb (stat_fails w) ps); [reflexivity|].
    cbn [result_bind]. destruct (stat_is_file w p); [|reflexivity].
    now rewrite <- app_assoc.
Qed.

(** The outcome of [collect_files]: the gathered hits, as a set, sorted. *)
Lemma collect_files_outcome (w : World) (sources : list SourceConfig) :
  outcome (collect_files w sources) =
  (ask hits <~ gathered w sources; Ok (sorted (py_set w hits))).
Proof.
  unfold collect_files. rewrite outcome_bind.
  rewrite (for_each_outcome _ _
             (fun src hits =>
                result_for_each (include_or_star src)
                  (fun pattern hits =>
                     ask ps <~ w_rglob w (Path_of_str (path src)) pattern;
                     ask files <~ files_among w ps;
                     Ok (hits ++ files)) hits)).
  - fold (gathered w sources). destruct (gathered w sources); reflexivity.
  - intros src hits. apply for_each_outcome. intros pattern hits'.
    rewrite outcome_bind. unfold Path_rglob, syscall, outcome at 1, snd.
    destruct (w_rglob w (Path_of_str (path src)) pattern); [|reflexivity].
    apply is_file_loop_outcome.
Qed.


Lemma filter_elem_of {A : Type} (f : A -> bool) (l : list A) (x : A) :
  x ∈ List.filter f l <-> x ∈ l /\ f x = true.
Proof. rewrite !list_elem_of_In. apply filter_In. Qed.

(** Every gathered path passed the [is_file] test. *)
Lemma gathered_is_file (w : World) (sources : list SourceConfig) (hits : list Path) :
  gathered w sources = Ok hits ->
  Forall (fun p => stat_is_file w p = true) hits.
Proof.
  unfold gathered.
  apply (result_for_each_inv (Forall (fun p => stat_is_file w p = true)));
    [|constructor].
  intros src h h' Hh. apply result_for_each_inv; [|exact Hh].
  intros pattern h1 h2 Hh1.
  destruct (w_rglob w (Path_of_str (path src)) pattern) as [ps|e];
    cbn [result_bind]; [|discriminate].
  unfold files_among. destruct (existsb (stat_fails w) ps); cbn [result_bind];
    [discriminate|].
  intros [= <-]. apply Forall_app. split; [exact Hh1|].
  apply Forall_forall. intros p Hp. now apply filter_elem_of in Hp.
Qed.

(** What [sorted(set(hits))] is, whatever the iteration order of the set. *)
Lemma sorted_py_set_Permutation (w : World) (hits : list Path) :
  sorted (py_set w hits) ≡ₚ elements (list_to_set hits : gset (list string)).
Proof.
  unfold sorted, py_set. rewrite merge_sort_Permutation. apply w_set_iter_perm.
Qed.

Lemma sorted_py_set_elem_of (w : World) (hits : list Path) (p : Path) :
  p ∈ sorted (py_set w hits) <-> p ∈ hits.
Proof.
  rewrite (sorted_py_set_Permutation w hits), elem_of_elements.
  apply elem_of_list_to_set.
Qed.

Lemma sorted_py_set_NoDup (w : World) (hits : list Path) :
  NoDup (sorted (py_set w hits)).
Proof. rewrite (sorted_py_set_Permutation w hits). apply NoDup_elements. Qed.

Lemma StronglySorted_le_lt (l : list Path) :
  StronglySorted Path_le l -> NoDup l -> StronglySorted Path_lt l.
Proof.
  induction 1 as [|x l Hl IH Hx]; intros Hnd; constructor.
  - apply IH. now apply NoDup_cons in Hnd.
  - apply NoDup_cons in Hnd as [Hnotin _].
    rewrite Forall_forall in Hx |- *. intros y Hy.
    destruct (proj1 (Path_le_lt_eq x y) (Hx y Hy)) as [Hlt| ->]; [assumption|].
    contradiction.
Qed.

Lemma sorted_py_set_StronglySorted (w : World) (hits : list Path) :
  StronglySorted Path_lt (sorted (py_set w hits)).
Proof.
  apply StronglySorted_le_lt; [|apply sorted_py_set_NoDup].
  apply StronglySorted_merge_sort; apply _.
Qed.

(** C2, as stated, fails on the order: the sequence returned for the [logs]
    directory puts [logs/a/x.csv] before [logs/a.d/x.csv], although as full
    path strings the second is the smaller one (a period sorts before a
    slash). *)
Lemma collect_files_not_in_string_order :
  outcome (collect_files demo_world [ {| path := "logs"; include := [PStr "*.csv"] |} ])
  = Ok [ ["logs"; "a"; "x.csv"]; ["logs"; "a.d"; "x.csv"] ]
  /\ Path_str ["logs"; "a"; "x.csv"] = "logs/a/x.csv"
  /\ Path_str ["logs"; "a.d"; "x.csv"] = "logs/a.d/x.csv"
  /\ str_compare "logs/a/x.csv" "logs/a.d/x.csv" = Gt.
Proof. repeat split; vm_compute; reflexivity. Qed.

(** C2, amended. The sequence that [collect_files] returns holds no path twice, even
    when several patterns or sources match the same file, and is in strictly
    increasing order of paths (the order of [Path.__lt__]: lexicographic on
    the parts of the path, each part compared as a string). *)
Theorem collect_files_sorted_nodup (w : World) (sources : list SourceConfig)
    (l : list Path) :
  outcome (collect_files w sources) = Ok l ->
  NoDup l /\ StronglySorted Path_lt l.
Proof.
  rewrite collect_files_outcome.
  destruct (gathered w sources) as [hits|e]; simpl; [|discriminate].
  intros [= <-]. split.
  - apply sorted_py_set_NoDup.
  - apply sorted_py_set_StronglySorted.
Qed.

Lemma collect_files_sorted_nodup_witness :
  NoDup [ ["data"; "raw"; "a.csv"]; ["data"; "raw"; "b.json"];
          ["data"; "raw"; "sub"; "c.csv"] ]
  /\ StronglySorted Path_lt
       [ ["data"; "raw"; "a.csv"]; ["data"; "raw"; "b.json"];
         ["data"; "raw"; "sub"; "c.csv"] ].
Proof.
  apply (collect_files_sorted_nodup demo_world demo_sources).
  vm_compute. reflexivity.
Defined.

(** C9. Every path that [collect_files] returns passed [is_file]: [stat],
    which follows symbolic links, reports a regular file there.  It is not a
    directory, and not a symbolic link that resolves to a directory, whatever
    pattern it matched. *)
Theorem collect_files_only_regular_files (w : World) (sources : list SourceConfig)
    (l : list Path) (p : Path) :
  outcome (collect_files w sources) = Ok l ->
  p ∈ l ->
  w_stat w p = Some Regular
  /\ stat_is_dir w p = false
  /\ ~ (w_is_symlink w p = true /\ stat_is_dir w p = true).
Proof.
  rewrite collect_files_outcome.
  destruct (gathered w sources) as [hits|e] eqn:Hg; simpl; [|discriminate].
  intros [= <-] Hp. apply sorted_py_set_elem_of in Hp.
  pose proof (gathered_is_file w sources hits Hg) as Hfiles.
  rewrite Forall_forall in Hfiles. specialize (Hfiles p Hp).
  unfold stat_is_file, stat_is_dir in *.
  destruct (w_stat w p) as [[]|]; try discriminate.
  split; [reflexivity|]. split; [reflexivity|]. intros [_ H]. discriminate.
Qed.

Lemma collect_files_only_regular_files_witness :
  w_stat demo_world ["data"; "raw"; "sub"; "c.csv"] = Some Regular
  /\ stat_is_dir demo_world ["data"; "raw"; "sub"; "c.csv"] = false
  /\ ~ (w_is_symlink demo_world ["data"; "raw"; "sub"; "c.csv"] = true
        /\ stat_is_dir demo_world ["data"; "raw"; "sub"; "c.csv"] = true).
Proof.
  apply (collect_files_only_regular_files demo_world demo_sources
           [ ["data"; "raw"; "a.csv"]; ["data"; "raw"; "b.json"];
             ["data"; "raw"; "sub"; "c.csv"] ]).
  - vm_compute. reflexivity.
  - apply list_elem_of_In. simpl. auto.
Defined.

Lemma sorted_py_set_nil (w : World) : sorted (py_set w []) = [].
Proof.
  apply Permutation_nil. symmetry.
  rewrite (sorted_py_set_Permutation w []). simpl. now rewrite elements_empty.
Qed.

(** *** The loops as one loop over the [rglob] calls *)

Lemma result_for_each_map {A B S : Type} (f : A -> B) (xs : list A)
    (body : B -> S -> result S) (s : S) :
  result_for_each (List.map f xs) body s = result_for_each xs (fun x => body (f x)) s.
Proof.
  revert s. induction xs as [|x xs IH]; intros s; simpl; [reflexivity|].
  destruct (body (f x) s); simpl; auto.
Qed.

Lemma result_for_each_ext {A S : Type} (xs : list A) (body1 body2 : A -> S -> result S)
    (s : S) :
  (forall x s, body1 x s = body2 x s) ->
  result_for_each xs body1 s = result_for_each xs body2 s.
Proof.
  intros H. revert s. induction xs as [|x xs IH]; intros s; simpl; [reflexivity|].
  rewrite H. destruct (body2 x s); simpl; auto.
Qed.

Lemma gathered_jobs (w : World) (sources : list SourceConfig) :
  gathered w sources =
  result_for_each (jobs sources)
    (fun job hits => ask files <~ job_result w job; Ok (hits ++ files)) [].
Proof.
  unfold gathered. generalize (@nil (list string)) as acc.
  induction sources as [|src sources IH]; intros acc; [reflexivity|].
  cbn [result_for_each jobs flat_map]. fold (jobs sources).
  rewrite result_for_each_app, result_for_each_map.
  rewrite (result_for_each_ext (include_or_star src) _
             (fun pattern hits =>
                ask files <~ job_result w (Path_of_str (path src), pattern);
                Ok (hits ++ files))).
  - destruct (result_for_each (include_or_star src) _ acc); cbn [result_bind];
      [apply IH | reflexivity].
  - intros pattern hits. unfold job_result. cbn [fst snd].
    destruct (w_rglob w (Path_of_str (path src)) pattern); reflexivity.
Qed.

Lemma jobs_loop_spec (w : World) (js : list (Path * value)) (acc hits : list Path) :
  result_for_each js
    (fun job hits => ask files <~ job_result w job; Ok (hits ++ files)) acc = Ok hits
  <-> Forall (fun job => exists files, job_result w job = Ok files) js
      /\ hits = acc ++ flat_map (yield_of w) js.
Proof.
  revert acc. induction js as [|job js IH]; intros acc; cbn [result_for_each flat_map].
  - rewrite app_nil_r. split; [intros [= <-]; split; [constructor|reflexivity]|].
    intros [_ ->]. reflexivity.
  - unfold yield_of at 1.
    destruct (job_result w job) as [files|e] eqn:E; cbn [result_bind].
    + rewrite IH, <- app_assoc. split; intros [Hacc ->]; (split; [|reflexivity]).
      * constructor; [now exists files | exact Hacc].
      * now apply Forall_cons in Hacc.
    + split; [discriminate|]. intros [Hacc _].
      apply Forall_cons in Hacc as [[files Hf] _]. congruence.
Qed.

Lemma in_jobs (sources : list SourceConfig) (base : Path) (pattern : value) :
  In (base, pattern) (jobs sources)
  <-> exists src, In src sources /\ base = Path_of_str (path src)
                  /\ In pattern (include_or_star src).
Proof.
  unfold jobs. rewrite in_flat_map. split.
  - intros [src [Hsrc Hin]]. apply in_map_iff in Hin as [pat [[= <- <-] Hpat]].
    exists src. auto.
  - intros [src [Hsrc [-> Hpat]]]. exists src. split; [exact Hsrc|].
    apply in_map_iff. exists pattern. auto.
Qed.

Lemma job_result_Ok (w : World) (base : Path) (pattern : value) (files : list Path) :
  job_result w (base, pattern) = Ok files
  <-> exists ps, w_rglob w base pattern = Ok ps
                 /\ Forall (fun p => stat_fails w p = false) ps
                 /\ files = List.filter (stat_is_file w) ps.
Proof.
  unfold job_result, files_among. cbn [fst snd].
  destruct (w_rglob w base pattern) as [ps|e]; cbn [result_bind].
  - destruct (existsb (stat_fails w) ps) eqn:E.
    + split; [discriminate|]. intros [ps' [[= <-] [Hok _]]].
      apply existsb_exists in E as [p [Hp Hfail]].
      rewrite Forall_forall in Hok. rewrite (Hok p) in Hfail; [discriminate|].
      now apply list_elem_of_In.
    + split.
      * intros [= <-]. exists ps. split; [reflexivity|]. split; [|reflexivity].
        apply Forall_forall. intros p Hp. apply list_elem_of_In in Hp.
        destruct (stat_fails w p) eqn:Hf; [|reflexivity].
        assert (existsb (stat_fails w) ps = true) by (apply existsb_exists; eauto).
        congruence.
      * intros [ps' [[= <-] [_ ->]]]. reflexivity.
  - split; [discriminate|]. intros [ps [? _]]. discriminate.
Qed.

Lemma job_returns_iff (w : World) (base : Path) (pattern : value) :
  job_returns w base pattern <-> exists files, job_result w (base, pattern) = Ok files.
Proof.
  unfold job_returns. split.
  - intros [ps [Hps Hok]]. eexists. apply job_result_Ok. eauto.
  - intros [files H]. apply job_result_Ok in H as [ps [Hps [Hok _]]]. eauto.
Qed.

Lemma collect_files_Ok_inv (w : World) (sources : list SourceConfig) (l : list Path) :
  outcome (collect_files w sources) = Ok l
  <-> Forall (fun job => exists files, job_result w job = Ok files) (jobs sources)
      /\ l = sorted (py_set w (flat_map (yield_of w) (jobs sources))).
Proof.
  rewrite collect_files_outcome, gathered_jobs. split.
  - destruct (result_for_each (jobs sources) _ []) as [hits|e] eqn:Hg;
      cbn [result_bind]; [|discriminate].
    intros [= <-]. apply jobs_loop_spec in Hg as [Hacc ->]. auto.
  - intros [Hacc ->].
    assert (result_for_each (jobs sources)
              (fun job hits => ask files <~ job_result w job; Ok (hits ++ files)) []
            = Ok (flat_map (yield_of w) (jobs sources))) as ->
      by (apply jobs_loop_spec; auto).
    reflexivity.
Qed.

(** When every call goes through, the paths gathered are the regular files
    that the calls yield. *)
Lemma gathered_membership (w : World) (sources : list SourceConfig) (p : Path) :
  Forall (fun job => exists files, job_result w job = Ok files) (jobs sources) ->
  In p (flat_map (yield_of w) (jobs sources))
  <-> exists src pattern ps,
        In src sources /\ In pattern (include_or_star src) /\
        w_rglob w (Path_of_str (path src)) pattern = Ok ps /\
        In p ps /\ w_stat w p = Some Regular.
Proof.
  intros Hacc. rewrite Forall_forall in Hacc. rewrite in_flat_map. split.
  - intros [[base pat] [Hjob Hp]].
    destruct (Hacc _ (proj2 (list_elem_of_In _ _) Hjob)) as [files Hfiles].
    unfold yield_of in Hp. rewrite Hfiles in Hp.
    apply job_result_Ok in Hfiles as [ps [Hps [_ ->]]].
    apply in_jobs in Hjob as [src [Hsrc [-> Hpat]]].
    apply filter_In in Hp as [Hp Hfile]. exists src, pat, ps.
    repeat split; auto. unfold stat_is_file in Hfile.
    destruct (w_stat w p) as [[]|]; congruence.
  - intros (src & pat & ps & Hsrc & Hpat & Hps & Hp & Hreg).
    assert (In (Path_of_str (path src), pat) (jobs sources)) as Hjob
      by (apply in_jobs; exists src; auto).
    exists (Path_of_str (path src), pat). split; [exact Hjob|].
    destruct (Hacc _ (proj2 (list_elem_of_In _ _) Hjob)) as [files Hfiles].
    unfold yield_of. rewrite Hfiles.
    apply job_result_Ok in Hfiles as [ps' [Hps' [_ ->]]].
    assert (ps' = ps) as -> by congruence.
    apply filter_In. split; [exact Hp|]. unfold stat_is_file. now rewrite Hreg.
Qed.

(** *** A source whose root does not exist *)






(** The sources that are left are collected: with the missing root listed,
    the files of the two other sources are returned. *)
Example collect_files_missing_root_collects :
  outcome (collect_files demo_world demo_sources_missing)
  = Ok [ ["data"; "raw"; "a.csv"]; ["data"; "raw"; "sub"; "c.csv"] ].
Proof. vm_compute. reflexivity. Qed.

Lemma same_elements_list_to_set (h1 h2 : list Path) :
  same_elements h1 h2 ->
  (list_to_set h1 : gset (list string)) = list_to_set h2.
Proof.
  intros H. apply set_eq. intros p. rewrite !elem_of_list_to_set. apply H.
Qed.

Lemma existsb_same_elements (f1 f2 : Path -> bool) (ps1 ps2 : list Path) :
  same_elements ps1 ps2 ->
  (forall p, f1 p = f2 p) ->
  existsb f1 ps1 = existsb f2 ps2.
Proof.
  intros Hsame Hf.
  destruct (existsb f1 ps1) eqn:E1, (existsb f2 ps2) eqn:E2; try reflexivity.
  - apply existsb_exists in E1 as [p [Hp Hfp]].
    assert (existsb f2 ps2 = true); [|congruence].
    apply existsb_exists. exists p. split; [|now rewrite <- Hf].
    apply list_elem_of_In, Hsame, list_elem_of_In, Hp.
  - apply existsb_exists in E2 as [p [Hp Hfp]].
    assert (existsb f1 ps1 = true); [|congruence].
    apply existsb_exists. exists p. split; [|now rewrite Hf].
    apply list_elem_of_In, Hsame, list_elem_of_In, Hp.
Qed.

(** Two observations of one tree gather the same paths. *)
Lemma gathered_same_tree (w1 w2 : World) (sources : list SourceConfig) :
  same_tree w1 w2 ->
  agree same_elements (gathered w1 sources) (gathered w2 sources).
Proof.
  intros [Hstat Hrglob]. unfold gathered.
  apply result_for_each_agree; [|easy].
  intros src h1 h2 Hh. apply result_for_each_agree; [|exact Hh].
  intros pattern k1 k2 Hk. specialize (Hrglob (Path_of_str (path src)) pattern).
  destruct (w_rglob w1 _ _) as [ps1|e1], (w_rglob w2 _ _) as [ps2|e2];
    simpl in *; try contradiction; [|exact Hrglob].
  unfold files_among.
  rewrite (existsb_same_elements (stat_fails w1) (stat_fails w2) ps1 ps2 Hrglob)
    by (intros p; unfold stat_fails; now rewrite Hstat).
  destruct (existsb (stat_fails w2) ps2); simpl; [reflexivity|].
  intros p. rewrite !elem_of_app, !filter_elem_of.
  unfold stat_is_file, w_stat. rewrite (Hk p), (Hrglob p), (Hstat p). reflexivity.
Qed.

(** C8. Two calls of [collect_files] on the same sources over an unchanged
    directory tree return the identical ordered sequence (or raise the same
    exception), however the directory entries are enumerated and in whatever
    order the interpreter iterates over the set. *)
Theorem collect_files_deterministic (w1 w2 : World) (sources : list SourceConfig) :
  same_tree w1 w2 ->
  outcome (collect_files w1 sources) = outcome (collect_files w2 sources).
Proof.
  intros Hsame. rewrite !collect_files_outcome.
  pose proof (gathered_same_tree w1 w2 sources Hsame) as Hg.
  destruct (gathered w1 sources) as [h1|e1], (gathered w2 sources) as [h2|e2];
    simpl in *; try contradiction; [|congruence].
  f_equal. apply (Sorted_unique Path_le).
  - apply Sorted_merge_sort, _.
  - apply Sorted_merge_sort, _.
  - rewrite (sorted_py_set_Permutation w1 h1), (sorted_py_set_Permutation w2 h2).
    now rewrite (same_elements_list_to_set h1 h2 Hg).
Qed.

Lemma demo_worlds_same_tree : same_tree demo_world demo_world_rev.
Proof.
  split; [reflexivity|]. intros base pattern. unfold w_rglob. simpl.
  destruct (demo_pattern_error pattern); [reflexivity|].
  unfold stat_fails, stat_is_dir, w_stat. simpl.
  destruct (demo_os_stat base) as [[]| |]; simpl; try reflexivity;
    try (intros p; reflexivity).
  destruct (demo_walk base pattern) as [ps|e]; simpl; [|reflexivity].
  intros p. rewrite !list_elem_of_In. apply in_rev.
Qed.

Lemma collect_files_deterministic_witness :
  outcome (collect_files demo_world demo_sources) =
  outcome (collect_files demo_world_rev demo_sources).
Proof.
  apply (collect_files_deterministic demo_world demo_world_rev demo_sources).
  exact demo_worlds_same_tree.
Defined.

(** In particular, calling twice in one world gives the same sequence. *)
Lemma same_tree_refl (w : World) : same_tree w w.
Proof.
  split; [reflexivity|]. intros base pattern.
  destruct (w_rglob w base pattern); simpl; [intros p|]; reflexivity.
Qed.

(** ** Structural identity *)

Lemma value_eqb_eq : forall a b : value, value_eqb a b = true <-> a = b.
Proof.
  fix IH 1.
  intros [|x|x|x|l1|d1] [|y|y|y|l2|d2]; simpl; try (split; [discriminate|congruence]);
    try tauto.
  - destruct x, y; simpl; split; congruence.
  - rewrite Z.eqb_eq. split; congruence.
  - rewrite String.eqb_eq. split; congruence.
  - revert l2. induction l1 as [|x l1 IHl]; intros [|y l2];
      try (split; [discriminate|congruence]); [tauto|].
    rewrite andb_true_iff, IH, IHl. split; [intros [-> [= ->]]|intros [= -> ->]]; auto.
  - revert d2. induction d1 as [|[k1 x1] d1 IHd]; intros [|[k2 x2] d2];
      try (split; [discriminate|congruence]); [tauto|].
    rewrite !andb_true_iff, !IH, IHd.
    split; [intros [[-> ->] [= ->]]|intros [= -> -> ->]]; auto.
Qed.

Lemma record_eqb_eq (r1 r2 : record) : record_eqb r1 r2 = true <-> r1 = r2.
Proof.
  revert r2. induction r1 as [|[k1 x1] r1 IH]; intros [|[k2 x2] r2]; simpl;
    try (split; [discriminate|congruence]); [tauto|].
  rewrite !andb_true_iff, String.eqb_eq, value_eqb_eq, IH.
  split; [intros [[-> ->] ->]|intros [= -> -> ->]]; auto.
Qed.

(** ** Record cleaning *)

(** *** [strip] *)

Lemma lstrip_starts_clean s : starts_clean (lstrip s).
Proof.
  induction s as [|c s IH]; simpl; [exact I|].
  destruct (is_space c) eqn:E; [exact IH | exact E].
Qed.

Lemma lstrip_fixed s : starts_clean s -> lstrip s = s.
Proof. destruct s as [|c s]; simpl; [reflexivity|]. now intros ->. Qed.

Lemma rstrip_starts_clean s : starts_clean s -> starts_clean (rstrip s).
Proof.
  destruct s as [|c s]; simpl; [exact id|]. intros Hc.
  destruct (rstrip s); [rewrite Hc|]; exact Hc.
Qed.

Lemma rstrip_idem s : rstrip (rstrip s) = rstrip s.
Proof.
  induction s as [|c s IH]; simpl; [reflexivity|].
  destruct (rstrip s) as [|c' r] eqn:E.
  - destruct (is_space c) eqn:Ec; simpl; [reflexivity|]. now rewrite Ec.
  - change (rstrip (String c (String c' r))) with
      (match rstrip (String c' r) with
       | EmptyString => if is_space c then EmptyString else String c EmptyString
       | r0 => String c r0
       end).
    now rewrite IH.
Qed.

Lemma strip_idem s : strip (strip s) = strip s.
Proof.
  unfold strip.
  rewrite (lstrip_fixed (rstrip (lstrip s)))
    by apply rstrip_starts_clean, lstrip_starts_clean.
  apply rstrip_idem.
Qed.

(** *** Rewriting the values of a record *)

Lemma map_strings_compose f g r :
  map_strings f (map_strings g r) = map_strings (fun s => f (g s)) r.
Proof.
  unfold map_strings. rewrite List.map_map. apply List.map_ext.
  intros [k []]; reflexivity.
Qed.

Lemma map_strings_ext f g r :
  (forall s, f s = g s) -> map_strings f r = map_strings g r.
Proof.
  intros H. apply List.map_ext. intros [k []]; simpl; try reflexivity. now rewrite H.
Qed.

Lemma keys_map_strings f r : keys (map_strings f r) = keys r.
Proof. unfold keys, map_strings. rewrite List.map_map. reflexivity. Qed.

(** *** [lower_keys_table] *)

Lemma columns_from_In (seen ks : list string) (k : string) :
  In k ks -> ~ In k seen -> In k (columns_from seen ks).
Proof.
  revert seen. induction ks as [|k' ks IH]; intros seen Hin Hseen; [contradiction|].
  simpl. destruct (existsb (String.eqb k') seen) eqn:E.
  - apply IH; [|exact Hseen]. destruct Hin as [->|Hin]; [|exact Hin].
    apply existsb_exists in E as [c [Hc Heq]]. apply String.eqb_eq in Heq. subst.
    contradiction.
  - destruct (String.eqb k' k) eqn:Ek.
    + apply String.eqb_eq in Ek. left. exact Ek.
    + apply String.eqb_neq in Ek. right. apply IH.
      * destruct Hin as [?|?]; [contradiction|assumption].
      * intros [?|?]; contradiction.
Qed.

Lemma columns_from_subset (seen ks : list string) (k : string) :
  In k (columns_from seen ks) -> In k ks.
Proof.
  revert seen. induction ks as [|k' ks IH]; intros seen; simpl; [tauto|].
  destruct (existsb (String.eqb k') seen); simpl; [eauto|].
  intros [?|?]; eauto.
Qed.

(** Among lower-case columns every column is the winner of its own name. *)
Lemma winner_lower_case (cols : list string) (k : string) :
  Forall lower_case cols -> In k cols -> winner cols k = Some k.
Proof.
  unfold winner. induction cols as [|c cols IH] using rev_ind; [contradiction|].
  intros Hlow Hin. apply Forall_app in Hlow as [Hlow Hc].
  apply Forall_cons in Hc as [Hc _]. rewrite fold_left_app. simpl. rewrite Hc.
  destruct (String.eqb c k) eqn:E.
  - apply String.eqb_eq in E. now subst.
  - apply String.eqb_neq in E. apply IH; [exact Hlow|].
    apply in_app_iff in Hin as [Hin|[?|[]]]; [exact Hin|contradiction].
Qed.

Lemma filter_all {A : Type} (f : A -> bool) (l : list A) :
  (forall x, In x l -> f x = true) -> List.filter f l = l.
Proof.
  induction l as [|x l IH]; intros H; simpl; [reflexivity|].
  rewrite (H x) by (left; reflexivity). rewrite IH; [reflexivity|].
  intros y Hy. apply H. now right.
Qed.

Lemma map_all_id {A : Type} (f : A -> A) (l : list A) :
  (forall x, In x l -> f x = x) -> List.map f l = l.
Proof.
  induction l as [|x l IH]; intros H; simpl; [reflexivity|].
  rewrite (H x) by (left; reflexivity). rewrite IH; [reflexivity|].
  intros y Hy. apply H. now right.
Qed.

(** A dataset whose field names are all in lower case is left as it is. *)
Lemma lower_keys_table_fixed (rs : list record) :
  Forall (fun r => Forall lower_case (keys r)) rs -> lower_keys_table rs = rs.
Proof.
  intros Hlow. unfold lower_keys_table.
  assert (Forall lower_case (columns rs)) as Hcols.
  { apply Forall_forall. intros k Hk. apply list_elem_of_In, columns_from_subset in Hk.
    apply in_flat_map in Hk as [r [Hr Hk]].
    rewrite Forall_forall in Hlow. specialize (Hlow r (proj2 (list_elem_of_In _ _) Hr)).
    rewrite Forall_forall in Hlow. apply Hlow. now apply list_elem_of_In. }
  assert (forall r, In r rs -> lower_keys_record (columns rs) r = r) as Hrec.
  { intros r Hr.
    assert (forall kx, In kx r ->
              lower (fst kx) = fst kx /\ wins (columns rs) (fst kx) = true) as Hfield.
    { intros [k x] Hkx. simpl.
      assert (In k (keys r)) as Hk by (apply in_map_iff; exists (k, x); auto).
      assert (lower k = k) as Hlk.
      { rewrite Forall_forall in Hlow.
        specialize (Hlow r (proj2 (list_elem_of_In _ _) Hr)).
        rewrite Forall_forall in Hlow. apply Hlow. now apply list_elem_of_In. }
      split; [exact Hlk|]. unfold wins. rewrite Hlk.
      rewrite (winner_lower_case _ k Hcols).
      - apply String.eqb_refl.
      - apply columns_from_In; [|tauto]. apply in_flat_map. exists r. auto. }
    unfold lower_keys_record.
    rewrite filter_all by (intros kx Hkx; apply (Hfield kx Hkx)).
    apply map_all_id. intros [k x] Hkx.
    pose proof (proj1 (Hfield (k, x) Hkx)) as Hk. simpl in *. now rewrite Hk. }
  rewrite filter_all.
  - now apply map_all_id.
  - intros r Hr. pose proof (Hrec r Hr) as E. unfold emptied.
    destruct r as [|kx r']; [reflexivity|]. now rewrite E.
Qed.

(** After step 1 every field name is in lower case. *)
Lemma lower_keys_table_lower_case (rs : list record) :
  Forall (fun r => Forall lower_case (keys r)) (lower_keys_table rs).
Proof.
  unfold lower_keys_table. apply Forall_forall. intros r' Hr'.
  apply list_elem_of_In, in_map_iff in Hr' as [r [<- _]].
  apply Forall_forall. intros k Hk. unfold keys, lower_keys_record in Hk.
  rewrite List.map_map in Hk. apply list_elem_of_In, in_map_iff in Hk as [kx [<- _]].
  simpl. apply lower_idem.
Qed.

(** *** [drop_duplicates_from] *)

Lemma drop_duplicates_from_idem seen rs :
  drop_duplicates_from seen (drop_duplicates_from seen rs) = drop_duplicates_from seen rs.
Proof.
  revert seen. induction rs as [|r rs IH]; intros seen; simpl; [reflexivity|].
  destruct (existsb (record_eqb r) seen) eqn:E; [apply IH|].
  simpl. rewrite E. now rewrite IH.
Qed.

Lemma drop_duplicates_from_Forall (P : record -> Prop) seen rs :
  Forall P rs -> Forall P (drop_duplicates_from seen rs).
Proof.
  revert seen. induction rs as [|r rs IH]; intros seen H; simpl; [constructor|].
  apply Forall_cons in H as [Hr H].
  destruct (existsb (record_eqb r) seen); [|constructor]; auto.
Qed.

Lemma filter_Forall_id {A : Type} (f : A -> bool) (l : list A) :
  Forall (fun x => f x = true) l -> List.filter f l = l.
Proof.
  induction 1 as [|x l Hx _ IH]; simpl; [reflexivity|]. now rewrite Hx, IH.
Qed.

Lemma filter_Forall_keep {A : Type} (P : A -> Prop) (f : A -> bool) (l : list A) :
  Forall P l -> Forall P (List.filter f l).
Proof.
  induction 1 as [|x l Hx _ IH]; simpl; [constructor|].
  destruct (f x); [constructor|]; auto.
Qed.

Lemma filter_Forall_true {A : Type} (f : A -> bool) (l : list A) :
  Forall (fun x => f x = true) (List.filter f l).
Proof.
  induction l as [|x l IH]; simpl; [constructor|].
  destruct (f x) eqn:E; [constructor|]; auto.
Qed.

Lemma map_Forall_id {A : Type} (f : A -> A) (l : list A) :
  Forall (fun x => f x = x) l -> List.map f l = l.
Proof.
  induction 1 as [|x l Hx _ IH]; simpl; [reflexivity|]. now rewrite Hx, IH.
Qed.

(** *** [clean] *)

Lemma Forall_map_iff {A B : Type} (P : B -> Prop) (f : A -> B) (l : list A) :
  Forall P (List.map f l) <-> Forall (fun x => P (f x)) l.
Proof.
  induction l as [|x l IH]; simpl; [split; constructor|].
  rewrite !Forall_cons. now rewrite IH.
Qed.

Section clean_twice.
Variable nfc : string -> string.
(** Normalising a normalised string changes nothing. *)
Hypothesis nfc_idem : forall s, nfc (nfc s) = nfc s.
(** Normalisation puts no whitespace at the ends of a stripped string. *)
Hypothesis nfc_strip : forall s, strip (nfc (strip s)) = nfc (strip s).

(** The records that leave step 3 are settled. *)
Lemma steps_1_to_3_settled (rs : list record) (o : CleaningConfig) :
  Forall (settled nfc o)
    (let rs1 := if lower_keys o then lower_keys_table rs else rs in
     let rs2 := if trim_whitespace o then List.map (map_strings strip) rs1 else rs1 in
     if normalize_unicode o then List.map (map_strings nfc) rs2 else rs2).
Proof.
  cbv zeta.
  assert (lower_keys o = true ->
          Forall (fun r => Forall lower_case (keys r))
            (if lower_keys o then lower_keys_table rs else rs)) as Hk.
  { intros ->. apply lower_keys_table_lower_case. }
  set (rs1 := if lower_keys o then lower_keys_table rs else rs) in *. clearbody rs1.
  apply Forall_forall. intros r Hr. apply list_elem_of_In in Hr.
  unfold settled.
  destruct (trim_whitespace o) eqn:Ht, (normalize_unicode o) eqn:Hn;
    repeat (apply in_map_iff in Hr as [? [<- Hr]]);
    (split; [intros Hf|split; intros Hf]); try discriminate Hf;
    rewrite ?keys_map_strings;
    try (specialize (Hk Hf); rewrite Forall_forall in Hk;
         apply Hk, list_elem_of_In, Hr);
    rewrite ?map_strings_compose; apply map_strings_ext; intros s;
    rewrite ?nfc_strip, ?nfc_idem, ?strip_idem; reflexivity.
Qed.

(** On settled records that are not empty, without duplicates, [clean] does
    nothing. *)
Lemma clean_settled (rs : list record) (o : CleaningConfig) :
  Forall (settled nfc o) rs ->
  (remove_empty o = true -> Forall (fun r => negb (record_is_empty r) = true) rs) ->
  (drop_duplicates o = true -> drop_duplicates_from [] rs = rs) ->
  clean nfc rs o = rs.
Proof.
  intros Hset Hne Hdup. unfold clean. cbv zeta.
  assert ((if lower_keys o then lower_keys_table rs else rs) = rs) as ->.
  { destruct (lower_keys o) eqn:Hl; [|reflexivity]. apply lower_keys_table_fixed.
    eapply Forall_impl; [exact Hset|]. intros r (H & _ & _). now apply H. }
  assert ((if trim_whitespace o then List.map (map_strings strip) rs else rs) = rs) as ->.
  { destruct (trim_whitespace o) eqn:Ht; [|reflexivity]. apply map_Forall_id.
    eapply Forall_impl; [exact Hset|]. intros r (_ & H & _). now apply H. }
  assert ((if normalize_unicode o then List.map (map_strings nfc) rs else rs) = rs) as ->.
  { destruct (normalize_unicode o) eqn:Hn; [|reflexivity]. apply map_Forall_id.
    eapply Forall_impl; [exact Hset|]. intros r (_ & _ & H). now apply H. }
  assert ((if remove_empty o
           then List.filter (fun r => negb (record_is_empty r)) rs else rs) = rs) as ->.
  { destruct (remove_empty o); [|reflexivity]. apply filter_Forall_id. now apply Hne. }
  destruct (drop_duplicates o); [|reflexivity]. now apply Hdup.
Qed.

Lemma clean_idem rs o : clean nfc (clean nfc rs o) o = clean nfc rs o.
Proof.
  apply clean_settled; unfold clean; cbv zeta;
    pose proof (steps_1_to_3_settled rs o) as Hset; cbv zeta in Hset;
    set (rs3 := if normalize_unicode o then _ else _) in *; clearbody rs3.
  - destruct (remove_empty o), (drop_duplicates o);
      auto using drop_duplicates_from_Forall, filter_Forall_keep.
  - intros ->. destruct (drop_duplicates o);
      auto using drop_duplicates_from_Forall, filter_Forall_true.
  - intros ->. apply drop_duplicates_from_idem.
Qed.
End clean_twice.

(** C5. For every sequence of records and every combination of the five
    cleaning flags, cleaning twice equals cleaning once, for any
    normalisation [nfc] that is idempotent and leaves no whitespace at the
    ends of a stripped string. *)
Theorem clean_idempotent (nfc : string -> string) (rs : list record)
    (opts : CleaningConfig) :
  (forall s, nfc (nfc s) = nfc s) ->
  (forall s, strip (nfc (strip s)) = nfc (strip s)) ->
  clean nfc (clean nfc rs opts) opts = clean nfc rs opts.
Proof. intros Hidem Hstrip. now apply clean_idem. Qed.

Lemma clean_idempotent_witness :
  clean (fun s => s)
    (clean (fun s => s)
       [ [("A", PStr " x "); ("a", PStr "y ")]; [("a", PStr "y")];
         [("b", PStr " "); ("c", PNone)]; [("a", PStr "y")] ]
       {| drop_duplicates := true; trim_whitespace := true; normalize_unicode := true;
          remove_empty := true; lower_keys := true |})
    {| drop_duplicates := true; trim_whitespace := true; normalize_unicode := true;
       remove_empty := true; lower_keys := true |}
  = clean (fun s => s)
      [ [("A", PStr " x "); ("a", PStr "y ")]; [("a", PStr "y")];
        [("b", PStr " "); ("c", PNone)]; [("a", PStr "y")] ]
      {| drop_duplicates := true; trim_whitespace := true; normalize_unicode := true;
         remove_empty := true; lower_keys := true |}.
Proof.
  apply (clean_idempotent (fun s => s)).
  - reflexivity.
  - intros s. apply strip_idem.
Defined.

(** The three examples the specification gives, with the flags it names on:
    they hold whatever the other flags are. *)
Example clean_trim_then_dedupe (ne lk nu : bool) :
  clean (fun s => s) [ [("a", PStr " x ")]; [("a", PStr "x")] ]
    {| drop_duplicates := true; trim_whitespace := true; normalize_unicode := nu;
       remove_empty := ne; lower_keys := lk |}
  = [ [("a", PStr "x")] ].
Proof. destruct ne, lk, nu; reflexivity. Qed.

Example clean_lower_keys_last_write_wins (dd tw nu ne : bool) :
  clean (fun s => s) [ [("A", PInt 1)]; [("a", PInt 2)] ]
    {| drop_duplicates := dd; trim_whitespace := tw; normalize_unicode := nu;
       remove_empty := ne; lower_keys := true |}
  = [ [("a", PInt 2)] ].
Proof. destruct dd, tw, nu, ne; reflexivity. Qed.

Example clean_remove_empty (dd tw nu lk : bool) :
  clean (fun s => s) [ [("a", PStr ""); ("b", PNone)]; [("a", PStr "x")] ]
    {| drop_duplicates := dd; trim_whitespace := tw; normalize_unicode := nu;
       remove_empty := true; lower_keys := lk |}
  = [ [("a", PStr "x")] ].
Proof. destruct dd, tw, nu, lk; reflexivity. Qed.

(** Within one record too, the later of two colliding names wins. *)
Example clean_lower_keys_one_record :
  clean (fun s => s) [ [("A", PInt 1); ("b", PInt 0); ("a", PInt 2)] ]
    {| drop_duplicates := false; trim_whitespace := false; normalize_unicode := false;
       remove_empty := false; lower_keys := true |}
  = [ [("b", PInt 0); ("a", PInt 2)] ].
Proof. reflexivity. Qed.

(** * Further properties of [load_config] *)

(** Further properties of [load_config]: the steps of a call with a path. *)
Lemma load_config_steps (w : World) (p : Path) :
  load_config w (Some p) =
  if stat_fails w p then ([EvExists p], Raise OSError)
  else if negb (stat_exists w p) then
    ([EvExists p], Raise (FileNotFoundError ("Config file not found: " +:+ Path_str p)))
  else if negb (w_yaml w) then
    ([EvExists p],
     Raise (RuntimeError
       "pyyaml is required to load YAML configs. Install with `pip install pyyaml`."))
  else
    ([EvExists p; EvOpenRead p],
     ask text <~ w_read_text w p;
     ask doc <~ w_safe_load w text;
     ask srcs <~ parse_sources (py_or doc (PDict []));
     ask cl <~ parse_cleaning (py_or doc (PDict []));
     ask ex <~ parse_export (py_or doc (PDict []));
     Ok {| sources := srcs; cleaning := cl; export := ex |}).
Proof.
  unfold load_config, Path_exists, Path_open_read, syscall, lift, bind, ret.
  destruct (stat_fails w p); [reflexivity|].
  destruct (stat_exists w p); [|reflexivity]. simpl negb. cbv iota.
  destruct (w_yaml w); [|reflexivity]. simpl negb. cbv iota.
  destruct (w_read_text w p) as [text|e]; [|reflexivity]. cbn [result_bind].
  destruct (w_safe_load w text) as [doc|e]; [|reflexivity]. cbn [result_bind].
  destruct (parse_sources _); simpl; [|reflexivity].
  destruct (parse_cleaning _); simpl; [|reflexivity].
  destruct (parse_export _); reflexivity.
Qed.

(** X1. When the file is there but the YAML library is not installed,
    [load_config] raises [RuntimeError] after the existence test alone: the
    file is not opened. *)
Theorem load_config_without_yaml (w : World) (p : Path) :
  stat_exists w p = true ->
  w_yaml w = false ->
  load_config w (Some p) =
  ([EvExists p],
   Raise (RuntimeError
     "pyyaml is required to load YAML configs. Install with `pip install pyyaml`.")).
Proof.
  intros Hex Hyaml. unfold load_config, Path_exists, syscall, bind.
  now rewrite (stat_exists_not_fails w p Hex), Hex, Hyaml.
Qed.

Lemma load_config_without_yaml_witness :
  load_config demo_world_no_yaml (Some ["conf"; "xml.yaml"]) =
  ([EvExists ["conf"; "xml.yaml"]],
   Raise (RuntimeError
     "pyyaml is required to load YAML configs. Install with `pip install pyyaml`.")).
Proof.
  apply (load_config_without_yaml demo_world_no_yaml ["conf"; "xml.yaml"]);
    reflexivity.
Defined.

(** X2. The existence test does not make the path readable: when it passes
    and opening the file fails (the path is a directory, say), the error of
    the read is what [load_config] raises, and nothing is parsed. *)
Theorem load_config_unreadable (w : World) (p : Path) (e : exn) :
  stat_exists w p = true ->
  w_yaml w = true ->
  w_read_text w p = Raise e ->
  load_config w (Some p) = ([EvExists p; EvOpenRead p], Raise e).
Proof.
  intros Hex Hyaml Hread.
  unfold load_config, Path_exists, Path_open_read, syscall, bind.
  now rewrite (stat_exists_not_fails w p Hex), Hex, Hyaml, Hread.
Qed.

Lemma load_config_unreadable_witness :
  load_config demo_world (Some ["conf"]) =
  ([EvExists ["conf"]; EvOpenRead ["conf"]], Raise OSError).
Proof. apply (load_config_unreadable demo_world ["conf"] OSError); reflexivity. Defined.

(** X3. A document that is true and is not a mapping (a sequence, a string,
    a number) makes [load_config] raise [AttributeError]: [data.get] is
    called on it. *)
Theorem load_config_document_not_mapping (w : World) (p : Path) (text : string)
    (doc : value) :
  stat_exists w p = true ->
  w_yaml w = true ->
  w_read_text w p = Ok text ->
  w_safe_load w text = Ok doc ->
  truthy doc = true ->
  is_dict doc = false ->
  outcome (load_config w (Some p)) = Raise AttributeError.
Proof.
  intros Hex Hyaml Hread Hload Htrue Hdict.
  rewrite (load_config_parsed w p text doc Hex Hyaml Hread Hload).
  unfold py_or. rewrite Htrue. destruct doc; try discriminate; reflexivity.
Qed.

Lemma load_config_document_not_mapping_witness :
  outcome (load_config (document_world (Ok (PList [PStr "a.csv"; PStr "b.csv"])))
             (Some ["config.yaml"]))
  = Raise AttributeError.
Proof.
  apply (load_config_document_not_mapping
           (document_world (Ok (PList [PStr "a.csv"; PStr "b.csv"])))
           ["config.yaml"] "..." (PList [PStr "a.csv"; PStr "b.csv"]));
    reflexivity.
Defined.

(** X4. When [sources] holds a true value, the [source] key is not looked
    at: the sources are those of the document that has [sources] alone. *)
Theorem parse_sources_prefers_sources (d : list (value * value)) (a : value) :
  dict_lookup d "sources" = Some a ->
  truthy a = true ->
  parse_sources (PDict d) = parse_sources (PDict [(PStr "sources", a)]).
Proof.
  intros Ha Ht. unfold parse_sources, py_get. rewrite Ha. simpl dict_lookup.
  cbn [result_bind]. now rewrite Ht.
Qed.

Lemma parse_sources_prefers_sources_witness :
  parse_sources (PDict [(PStr "source", PDict [(PStr "path", PStr "one")]);
                        (PStr "sources", PDict [(PStr "path", PStr "many")])])
  = parse_sources (PDict [(PStr "sources", PDict [(PStr "path", PStr "many")])]).
Proof.
  apply (parse_sources_prefers_sources
           [(PStr "source", PDict [(PStr "path", PStr "one")]);
            (PStr "sources", PDict [(PStr "path", PStr "many")])]
           (PDict [(PStr "path", PStr "many")])); reflexivity.
Defined.

(** X5. When [sources] is absent or holds a false value (null, an empty
    list, an empty mapping), the value under [source] is used in its place. *)
Theorem parse_sources_falls_back_to_source (d : list (value * value)) (b : value) :
  truthy (dict_get d "sources") = false ->
  dict_lookup d "source" = Some b ->
  parse_sources (PDict d) = parse_sources (PDict [(PStr "source", b)]).
Proof.
  intros Ha Hb. unfold parse_sources, py_get, dict_get in *.
  rewrite Hb. simpl dict_lookup. cbn [result_bind truthy].
  destruct (dict_lookup d "sources") as [a|]; cbn [result_bind]; now rewrite ?Ha.
Qed.

Lemma parse_sources_falls_back_to_source_witness :
  parse_sources (PDict [(PStr "sources", PList []);
                        (PStr "source", PDict [(PStr "path", PStr "one")])])
  = parse_sources (PDict [(PStr "source", PDict [(PStr "path", PStr "one")])]).
Proof.
  apply (parse_sources_falls_back_to_source
           [(PStr "sources", PList []);
            (PStr "source", PDict [(PStr "path", PStr "one")])]
           (PDict [(PStr "path", PStr "one")])); reflexivity.
Defined.

(** X6. A single source mapping under [sources] loads as the one-element
    list holding that mapping does. *)
Theorem parse_sources_mapping_as_singleton (d1 d2 m : list (value * value)) :
  dict_lookup d1 "sources" = Some (PDict m) ->
  dict_lookup d2 "sources" = Some (PList [PDict m]) ->
  m <> [] ->
  parse_sources (PDict d1) = parse_sources (PDict d2).
Proof.
  intros H1 H2 Hm. unfold parse_sources, py_get. rewrite H1, H2.
  destruct m as [|kv m]; [congruence|]. cbn [result_bind truthy result_for_each].
  destruct (SourceConfig_of (PDict (kv :: m))); reflexivity.
Qed.

Lemma parse_sources_mapping_as_singleton_witness :
  parse_sources (PDict [(PStr "sources", PDict [(PStr "path", PStr "in")])])
  = parse_sources (PDict [(PStr "sources", PList [PDict [(PStr "path", PStr "in")]])]).
Proof.
  apply (parse_sources_mapping_as_singleton _ _ [(PStr "path", PStr "in")]);
    [reflexivity | reflexivity | discriminate].
Defined.

(** The loop over a list of sources: the mappings are converted in order,
    the other entries are skipped, and a conversion that raises ends it. *)
Lemma sources_loop_spec (l : list value) (acc srcs : list SourceConfig) :
  result_for_each l
    (fun s sources =>
       match s with
       | PDict _ => ask c <~ SourceConfig_of s; Ok (sources ++ [c])
       | _ => Ok sources
       end) acc = Ok srcs
  <-> exists cs, Forall2 (fun s c => SourceConfig_of s = Ok c) (List.filter is_dict l) cs
                 /\ srcs = acc ++ cs.
Proof.
  revert acc. induction l as [|s l IH]; intros acc; cbn [result_for_each List.filter].
  - split.
    + intros [= <-]. exists []. split; [constructor | now rewrite app_nil_r].
    + intros [cs [Hcs ->]]. inversion Hcs. now rewrite app_nil_r.
  - destruct s as [|b0|z0|s0|l0|d0]; cbn [is_dict result_bind]; try apply IH.
    destruct (SourceConfig_of (PDict d0)) as [c|e] eqn:E; cbn [result_bind].
    + rewrite IH. split.
      * intros [cs [Hcs ->]]. exists (c :: cs). split; [now constructor|].
        now rewrite <- app_assoc.
      * intros [cs [Hcs ->]]. inversion Hcs as [|? c' ? cs' Hc Hcs']; subst.
        assert (c' = c) as -> by congruence.
        exists cs'. split; [assumption | now rewrite <- app_assoc].
    + split; [discriminate|]. intros [cs [Hcs _]].
      inversion Hcs as [|? c' ? cs' Hc Hcs']; subst. congruence.
Qed.

(** X7. From a list under [sources], [load_config] takes the mappings in
    their order, one source each, and skips every other entry: the list
    loads exactly when each mapping converts, to the converted mappings. *)
Theorem parse_sources_list (d : list (value * value)) (l : list value)
    (srcs : list SourceConfig) :
  dict_lookup d "sources" = Some (PList l) ->
  l <> [] ->
  parse_sources (PDict d) = Ok srcs
  <-> Forall2 (fun s c => SourceConfig_of s = Ok c) (List.filter is_dict l) srcs.
Proof.
  intros Hl Hne. unfold parse_sources, py_get. rewrite Hl.
  destruct l as [|s0 l0]; [congruence|]. cbn [result_bind truthy].
  rewrite sources_loop_spec. split.
  - intros [cs [Hcs ->]]. exact Hcs.
  - intros H. exists srcs. split; [exact H | reflexivity].
Qed.

Lemma parse_sources_list_witness :
  parse_sources
    (PDict [(PStr "sources",
             PList [PDict [(PStr "path", PStr "a")]; PStr "skipped";
                    PDict [(PStr "path", PStr "b"); (PStr "include", PList [PStr "*.csv"])]])])
  = Ok [ {| path := "a"; include := SourceConfig_include_default |};
         {| path := "b"; include := [PStr "*.csv"] |} ].
Proof.
  apply (parse_sources_list _
           [PDict [(PStr "path", PStr "a")]; PStr "skipped";
            PDict [(PStr "path", PStr "b"); (PStr "include", PList [PStr "*.csv"])]]).
  - reflexivity.
  - discriminate.
  - repeat constructor.
Defined.

(** X8. An [include] given as a string and not as a list is split into its
    characters: every character becomes a pattern of its own. *)
Theorem parse_sources_include_string (d m : list (value * value)) (s : string) :
  dict_lookup d "sources" = Some (PDict m) ->
  dict_lookup m "include" = Some (PStr s) ->
  parse_sources (PDict d) =
  Ok [ {| path := py_str (match dict_lookup m "path" with
                          | Some x => x
                          | None => PStr "./data/raw"
                          end);
          include := characters s |} ]
  /\ List.length (characters s) = String.length s.
Proof.
  intros Hm Hinc. split.
  - pose proof (dict_lookup_nonempty _ _ _ Hinc) as Ht.
    unfold parse_sources, py_get. rewrite Hm. cbn [result_bind]. rewrite Ht.
    cbn [result_bind]. unfold SourceConfig_of, py_get. rewrite Hinc. reflexivity.
  - unfold characters. rewrite List.length_map.
    clear. induction s as [|c s IH]; simpl; [reflexivity|]. now rewrite IH.
Qed.

Lemma parse_sources_include_string_witness :
  parse_sources (PDict [(PStr "sources", PDict [(PStr "include", PStr "*.csv")])])
  = Ok [ {| path := "./data/raw";
            include := [PStr "*"; PStr "."; PStr "c"; PStr "s"; PStr "v"] |} ].
Proof.
  apply (parse_sources_include_string
           [(PStr "sources", PDict [(PStr "include", PStr "*.csv")])]
           [(PStr "include", PStr "*.csv")] "*.csv"); reflexivity.
Defined.

Lemma SourceConfig_of_not_iterable (m : list (value * value)) (v : value) :
  dict_lookup m "include" = Some v ->
  is_iterable v = false ->
  SourceConfig_of (PDict m) = Raise TypeError.
Proof.
  intros Hinc Hv. unfold SourceConfig_of, py_get. rewrite Hinc. cbn [result_bind].
  destruct v; try discriminate; reflexivity.
Qed.

Lemma SourceConfig_of_dict_raises (m : list (value * value)) (e : exn) :
  SourceConfig_of (PDict m) = Raise e -> e = TypeError.
Proof.
  unfold SourceConfig_of, py_get. cbn [result_bind].
  destruct (match dict_lookup m "include" with
            | Some x => x
            | None => PList SourceConfig_include_default
            end); simpl; congruence.
Qed.

Lemma sources_loop_not_iterable (l : list value) (m : list (value * value))
    (acc : list SourceConfig) :
  In (PDict m) l ->
  SourceConfig_of (PDict m) = Raise TypeError ->
  result_for_each l
    (fun s sources =>
       match s with
       | PDict _ => ask c <~ SourceConfig_of s; Ok (sources ++ [c])
       | _ => Ok sources
       end) acc = Raise TypeError.
Proof.
  intros Hin Hbad. revert acc.
  induction l as [|s l IH]; intros acc; [contradiction|]. cbn [result_for_each].
  destruct Hin as [->|Hin].
  - now rewrite Hbad.
  - destruct s as [|b0|z0|s0|l0|d0]; cbn [result_bind]; try (apply IH; assumption).
    destruct (SourceConfig_of (PDict d0)) as [c|e] eqn:E; cbn [result_bind].
    + apply IH; assumption.
    + now rewrite (SourceConfig_of_dict_raises d0 e E).
Qed.

(** X9. An [include] that is present and not iterable (null, a number, a
    boolean) is not replaced by the default patterns: [load_config] raises
    [TypeError], whether the source stands alone or in a list. *)
Theorem load_config_include_not_iterable (w : World) (p : Path) (text : string)
    (d m : list (value * value)) (a v : value) :
  stat_exists w p = true ->
  w_yaml w = true ->
  w_read_text w p = Ok text ->
  w_safe_load w text = Ok (PDict d) ->
  dict_lookup d "sources" = Some a ->
  a = PDict m \/ (exists l, a = PList l /\ In (PDict m) l) ->
  dict_lookup m "include" = Some v ->
  is_iterable v = false ->
  outcome (load_config w (Some p)) = Raise TypeError.
Proof.
  intros Hex Hyaml Hread Hload Ha Hshape Hinc Hv.
  pose proof (dict_lookup_nonempty _ _ _ Ha) as Hd.
  pose proof (dict_lookup_nonempty _ _ _ Hinc) as Hm.
  pose proof (SourceConfig_of_not_iterable m v Hinc Hv) as Hbad.
  rewrite (load_config_parsed w p text (PDict d) Hex Hyaml Hread Hload).
  unfold py_or. rewrite Hd. unfold outcome, snd.
  assert (parse_sources (PDict d) = Raise TypeError) as ->; [|reflexivity].
  unfold parse_sources, py_get. rewrite Ha. cbn [result_bind].
  destruct Hshape as [->|[l [-> Hin]]].
  - rewrite Hm. cbn [result_bind]. now rewrite Hbad.
  - assert (truthy (PList l) = true) as -> by (destruct l; [contradiction|reflexivity]).
    cbn [result_bind]. now apply sources_loop_not_iterable with (m := m).
Qed.

Lemma load_config_include_not_iterable_witness :
  outcome (load_config
             (document_world
                (Ok (PDict [(PStr "sources",
                             PDict [(PStr "path", PStr "in"); (PStr "include", PNone)])])))
             (Some ["config.yaml"]))
  = Raise TypeError.
Proof.
  apply (load_config_include_not_iterable _ ["config.yaml"] "..."
           [(PStr "sources", PDict [(PStr "path", PStr "in"); (PStr "include", PNone)])]
           [(PStr "path", PStr "in"); (PStr "include", PNone)]
           (PDict [(PStr "path", PStr "in"); (PStr "include", PNone)]) PNone);
    try reflexivity.
  left. reflexivity.
Defined.

Lemma parse_cleaning_default (d : list (value * value)) :
  truthy (dict_get d "cleaning") = false ->
  parse_cleaning (PDict d) = Ok CleaningConfig_default.
Proof.
  unfold parse_cleaning, py_get, dict_get, py_or. cbn [result_bind].
  destruct (dict_lookup d "cleaning") as [c|]; [intros ->|intros _]; reflexivity.
Qed.

Lemma parse_export_default (d : list (value * value)) :
  truthy (dict_get d "export") = false ->
  parse_export (PDict d) = Ok ExportConfig_default.
Proof.
  unfold parse_export, py_get, dict_get, py_or. cbn [result_bind].
  destruct (dict_lookup d "export") as [c|]; [intros ->|intros _]; reflexivity.
Qed.

(** X10. A [cleaning] or [export] section that is absent, or present with a
    false value (null, an empty mapping, an empty list, zero), is defaulted as
    a whole: the configuration carries [CleaningConfig()] and
    [ExportConfig()]. *)
Theorem load_config_sections_default (w : World) (p : Path) (text : string)
    (d : list (value * value)) (srcs : list SourceConfig) :
  stat_exists w p = true ->
  w_yaml w = true ->
  w_read_text w p = Ok text ->
  w_safe_load w text = Ok (PDict d) ->
  parse_sources (PDict d) = Ok srcs ->
  truthy (dict_get d "cleaning") = false ->
  truthy (dict_get d "export") = false ->
  outcome (load_config w (Some p)) =
  Ok {| sources := srcs; cleaning := CleaningConfig_default;
        export := ExportConfig_default |}.
Proof.
  intros Hex Hyaml Hread Hload Hsrcs Hcl Hexp.
  rewrite (load_config_parsed w p text (PDict d) Hex Hyaml Hread Hload).
  unfold py_or, outcome, snd. destruct d as [|kv d].
  - cbn [truthy] in *. simpl in Hsrcs. injection Hsrcs as <-. reflexivity.
  - cbn [truthy]. rewrite Hsrcs, (parse_cleaning_default _ Hcl),
      (parse_export_default _ Hexp). reflexivity.
Qed.

Lemma load_config_sections_default_witness :
  outcome (load_config
             (document_world
                (Ok (PDict [(PStr "source", PDict [(PStr "path", PStr "in")]);
                            (PStr "cleaning", PNone); (PStr "export", PDict [])])))
             (Some ["config.yaml"]))
  = Ok {| sources := [ {| path := "in"; include := SourceConfig_include_default |} ];
          cleaning := CleaningConfig_default; export := ExportConfig_default |}.
Proof.
  apply (load_config_sections_default _ ["config.yaml"] "..."
           [(PStr "source", PDict [(PStr "path", PStr "in")]);
            (PStr "cleaning", PNone); (PStr "export", PDict [])]);
    reflexivity.
Defined.

(** X11. A [cleaning] section that is true and is not a mapping (a string, a
    list, [true]) makes [load_config] raise [AttributeError] once the sources
    have loaded; so does such an [export] section once the cleaning options
    have loaded. *)
Theorem load_config_section_not_mapping (w : World) (p : Path) (text : string)
    (d : list (value * value)) (srcs : list SourceConfig) (name : string) (c : value) :
  stat_exists w p = true ->
  w_yaml w = true ->
  w_read_text w p = Ok text ->
  w_safe_load w text = Ok (PDict d) ->
  parse_sources (PDict d) = Ok srcs ->
  dict_lookup d name = Some c ->
  truthy c = true ->
  is_dict c = false ->
  name = "cleaning" \/ (name = "export" /\ exists cl, parse_cleaning (PDict d) = Ok cl) ->
  outcome (load_config w (Some p)) = Raise AttributeError.
Proof.
  intros Hex Hyaml Hread Hload Hsrcs Hc Ht Hnd Hname.
  pose proof (dict_lookup_nonempty _ _ _ Hc) as Hd.
  rewrite (load_config_parsed w p text (PDict d) Hex Hyaml Hread Hload).
  unfold py_or, outcome, snd. rewrite Hd, Hsrcs. cbn [result_bind].
  destruct Hname as [->|[-> [cl Hcl]]].
  - unfold parse_cleaning, py_get at 1. rewrite Hc. cbn [result_bind].
    unfold py_or. rewrite Ht. destruct c; try discriminate; reflexivity.
  - rewrite Hcl. cbn [result_bind].
    unfold parse_export, py_get at 1. rewrite Hc. cbn [result_bind].
    unfold py_or. rewrite Ht. destruct c; try discriminate; reflexivity.
Qed.

Lemma load_config_section_not_mapping_witness :
  outcome (load_config
             (document_world (Ok (PDict [(PStr "cleaning", PBool true)])))
             (Some ["config.yaml"]))
  = Raise AttributeError.
Proof.
  apply (load_config_section_not_mapping _ ["config.yaml"] "..."
           [(PStr "cleaning", PBool true)] [SourceConfig_new "./data/raw"]
           "cleaning" (PBool true)); try reflexivity.
  left. reflexivity.
Defined.

(** X12. Every cleaning flag is read on its own: a flag that the [cleaning]
    mapping holds is the truth value of what it holds (so a non-empty string
    enables it and a null disables it), and a flag it does not hold keeps its
    default, whatever the other flags are. *)
Theorem parse_cleaning_flags (d cl : list (value * value)) :
  dict_lookup d "cleaning" = Some (PDict cl) ->
  cl <> [] ->
  exists c, parse_cleaning (PDict d) = Ok c
    /\ forall name, In name cleaning_flags ->
         CleaningConfig_flag c name =
         match dict_lookup cl name with
         | Some x => Some (truthy x)
         | None => CleaningConfig_flag CleaningConfig_default name
         end.
Proof.
  intros Hcl Hne. unfold parse_cleaning, py_get at 1. rewrite Hcl. cbn [result_bind].
  unfold py_or. destruct cl as [|kv cl']; [congruence|]. cbn [truthy].
  unfold py_get. cbn [result_bind]. eexists. split; [reflexivity|].
  intros name Hname. simpl in Hname.
  destruct Hname as [<-|[<-|[<-|[<-|[<-|[]]]]]];
    unfold CleaningConfig_flag; simpl String.eqb; cbn [drop_duplicates trim_whitespace
      normalize_unicode remove_empty lower_keys CleaningConfig_default];
    match goal with |- context [dict_lookup ?l ?k] => destruct (dict_lookup l k) end;
    reflexivity.
Qed.

Lemma parse_cleaning_flags_witness :
  exists c,
    parse_cleaning
      (PDict [(PStr "cleaning",
               PDict [(PStr "drop_duplicates", PStr "false");
                      (PStr "remove_empty", PNone)])]) = Ok c
    /\ forall name, In name cleaning_flags ->
         CleaningConfig_flag c name =
         match dict_lookup [(PStr "drop_duplicates", PStr "false");
                            (PStr "remove_empty", PNone)] name with
         | Some x => Some (truthy x)
         | None => CleaningConfig_flag CleaningConfig_default name
         end.
Proof.
  apply (parse_cleaning_flags
           [(PStr "cleaning",
             PDict [(PStr "drop_duplicates", PStr "false"); (PStr "remove_empty", PNone)])]
           [(PStr "drop_duplicates", PStr "false"); (PStr "remove_empty", PNone)]).
  - reflexivity.
  - discriminate.
Defined.

(** What a configuration that [load_config] returned for a path was made
    of. *)
Lemma load_config_Ok_inv (w : World) (p : Path) (cfg : AppConfig) :
  outcome (load_config w (Some p)) = Ok cfg ->
  exists text doc,
    w_read_text w p = Ok text /\ w_safe_load w text = Ok doc /\
    parse_sources (py_or doc (PDict [])) = Ok (sources cfg) /\
    parse_cleaning (py_or doc (PDict [])) = Ok (cleaning cfg) /\
    parse_export (py_or doc (PDict [])) = Ok (export cfg).
Proof.
  rewrite load_config_steps. unfold outcome.
  destruct (stat_fails w p); [discriminate|].
  destruct (negb (stat_exists w p)); [discriminate|].
  destruct (negb (w_yaml w)); [discriminate|]. cbn [snd].
  destruct (w_read_text w p) as [text|e] eqn:Hr; cbn [result_bind]; [|discriminate].
  destruct (w_safe_load w text) as [doc|e] eqn:Hl; cbn [result_bind]; [|discriminate].
  destruct (parse_sources _) as [srcs|] eqn:Hs; cbn [result_bind]; [|discriminate].
  destruct (parse_cleaning _) as [cl|] eqn:Hc; cbn [result_bind]; [|discriminate].
  destruct (parse_export _) as [ex|] eqn:He; cbn [result_bind]; [|discriminate].
  intros [= <-]. exists text, doc. repeat split; auto.
Qed.

Lemma parse_export_format_lower (data : value) (ex : ExportConfig) :
  parse_export data = Ok ex -> lower (format ex) = format ex.
Proof.
  unfold parse_export.
  destruct (py_get data "export" (PDict [])) as [e|]; [|discriminate]. cbn [result_bind].
  destruct (py_get (py_or e (PDict [])) "format" (PStr "parquet")) as [f|];
    [|discriminate]. cbn [result_bind].
  destruct (py_get (py_or e (PDict [])) "output_dir" _) as [o|]; [|discriminate].
  cbn [result_bind].
  destruct (py_get (py_or e (PDict [])) "filename" _) as [n|]; [|discriminate].
  cbn [result_bind]. intros [= <-]. apply lower_idem.
Qed.

(** X13. The export format of every configuration that [load_config]
    returns, with or without a document, is in lower case: lower-casing it
    again changes nothing. *)
Theorem load_config_format_is_lower (w : World) (config_path : option Path)
    (cfg : AppConfig) :
  outcome (load_config w config_path) = Ok cfg ->
  lower (format (export cfg)) = format (export cfg).
Proof.
  destruct config_path as [p|].
  - intros H. apply load_config_Ok_inv in H as (text & doc & _ & _ & _ & _ & Hexp).
    exact (parse_export_format_lower _ _ Hexp).
  - intros [= <-]. reflexivity.
Qed.

Lemma load_config_format_is_lower_witness :
  lower "xml" = "xml".
Proof.
  apply (load_config_format_is_lower demo_world (Some ["conf"; "xml.yaml"])
           {| sources := [SourceConfig_new "./data/raw"];
              cleaning := CleaningConfig_default;
              export := {| format := "xml"; output_dir := "./data/processed";
                           filename := "dataset" |} |}).
  reflexivity.
Defined.

Lemma py_or_dict (d : list (value * value)) : py_or (PDict d) (PDict []) = PDict d.
Proof. destruct d; reflexivity. Qed.

Lemma dict_lookup_unknown (d1 d2 : list (value * value)) (k v : value) (key : string) :
  k <> PStr key ->
  dict_lookup (d1 ++ (k, v) :: d2) key = dict_lookup (d1 ++ d2) key.
Proof.
  intros Hk. induction d1 as [|[k1 x1] d1 IH]; simpl.
  - destruct k as [| | |s| |]; try reflexivity.
    destruct (String.eqb s key) eqn:E; [|reflexivity].
    apply String.eqb_eq in E. congruence.
  - destruct k1 as [| | |s1| |]; try exact IH. now rewrite IH.
Qed.

(** The configuration depends on the document through the four keys only. *)
Lemma parse_by_known_keys (da db : list (value * value)) :
  (forall name, In name known_keys -> dict_lookup da name = dict_lookup db name) ->
  parse_sources (PDict da) = parse_sources (PDict db)
  /\ parse_cleaning (PDict da) = parse_cleaning (PDict db)
  /\ parse_export (PDict da) = parse_export (PDict db).
Proof.
  intros H. unfold parse_sources, parse_cleaning, parse_export, py_get.
  rewrite (H "sources"), (H "source"), (H "cleaning"), (H "export");
    simpl; auto 6.
Qed.

(** X14. Keys other than [sources], [source], [cleaning] and [export] are
    ignored at the top of the document: taking such a key out of the
    document, wherever it stands and whatever it holds, leaves the outcome
    of [load_config] as it was. *)
Theorem load_config_ignores_unknown_keys (w1 w2 : World) (p : Path) (t1 t2 : string)
    (d1 d2 : list (value * value)) (k v : value) :
  stat_exists w1 p = true -> w_yaml w1 = true ->
  w_read_text w1 p = Ok t1 -> w_safe_load w1 t1 = Ok (PDict (d1 ++ (k, v) :: d2)) ->
  stat_exists w2 p = true -> w_yaml w2 = true ->
  w_read_text w2 p = Ok t2 -> w_safe_load w2 t2 = Ok (PDict (d1 ++ d2)) ->
  (forall name, In name known_keys -> k <> PStr name) ->
  outcome (load_config w1 (Some p)) = outcome (load_config w2 (Some p)).
Proof.
  intros Hex1 Hy1 Hr1 Hl1 Hex2 Hy2 Hr2 Hl2 Hk.
  rewrite (load_config_parsed w1 p t1 _ Hex1 Hy1 Hr1 Hl1),
    (load_config_parsed w2 p t2 _ Hex2 Hy2 Hr2 Hl2).
  rewrite !py_or_dict. unfold outcome, snd.
  destruct (parse_by_known_keys (d1 ++ (k, v) :: d2) (d1 ++ d2)) as (-> & -> & ->);
    [|reflexivity].
  intros name Hname. apply dict_lookup_unknown. now apply Hk.
Qed.

Lemma load_config_ignores_unknown_keys_witness :
  outcome (load_config
             (document_world
                (Ok (PDict [(PStr "version", PInt 2);
                            (PStr "export", PDict [(PStr "format", PStr "CSV")])])))
             (Some ["config.yaml"]))
  = outcome (load_config
               (document_world
                  (Ok (PDict [(PStr "export", PDict [(PStr "format", PStr "CSV")])])))
               (Some ["config.yaml"])).
Proof.
  apply (load_config_ignores_unknown_keys _ _ ["config.yaml"] "..." "..."
           [] [(PStr "export", PDict [(PStr "format", PStr "CSV")])]
           (PStr "version") (PInt 2)); try reflexivity.
  intros name Hname. simpl in Hname.
  destruct Hname as [<-|[<-|[<-|[<-|[]]]]]; discriminate.
Defined.

(** X15. [load_config] makes at most two system calls, the existence test
    and then the read of the configuration file, and none without a path: it
    never writes to the filesystem and never walks a directory. *)
Theorem load_config_trace (w : World) (config_path : option Path) :
  match config_path with
  | None => trace (load_config w config_path) = []
  | Some p => trace (load_config w config_path) = [EvExists p]
              \/ trace (load_config w config_path) = [EvExists p; EvOpenRead p]
  end
  /\ Forall (fun ev => is_write ev = false) (trace (load_config w config_path)).
Proof.
  destruct config_path as [p|]; [|split; [reflexivity|constructor]].
  assert (trace (load_config w (Some p)) = [EvExists p]
          \/ trace (load_config w (Some p)) = [EvExists p; EvOpenRead p]) as H.
  { rewrite load_config_steps.
    destruct (stat_fails w p); [left; reflexivity|].
    destruct (negb (stat_exists w p)); [left; reflexivity|].
    destruct (negb (w_yaml w)); [left|right]; reflexivity. }
  split; [exact H|]. destruct H as [-> | ->]; repeat constructor.
Qed.

(** * Further properties of [collect_files] *)

(** X16. What [collect_files] returns is exactly the regular files that
    some pattern of some source yields: a path is in the result if and only
    if [rglob], started on the root of one of the sources with one of its
    patterns ([*] when it has none), yields it and [is_file] holds of it. *)
Theorem collect_files_membership (w : World) (sources : list SourceConfig)
    (l : list Path) (p : Path) :
  outcome (collect_files w sources) = Ok l ->
  p ∈ l <->
  exists src pattern ps,
    In src sources /\ In pattern (include_or_star src) /\
    w_rglob w (Path_of_str (path src)) pattern = Ok ps /\
    In p ps /\ w_stat w p = Some Regular.
Proof.
  intros H. apply collect_files_Ok_inv in H as [Hacc ->].
  rewrite sorted_py_set_elem_of, list_elem_of_In.
  now apply gathered_membership.
Qed.

Lemma collect_files_membership_witness :
  ["data"; "raw"; "b.json"] ∈
    [ ["data"; "raw"; "a.csv"]; ["data"; "raw"; "b.json"];
      ["data"; "raw"; "sub"; "c.csv"] ]
  <-> exists src pattern ps,
        In src demo_sources /\ In pattern (include_or_star src) /\
        w_rglob demo_world (Path_of_str (path src)) pattern = Ok ps /\
        In ["data"; "raw"; "b.json"] ps /\
        w_stat demo_world ["data"; "raw"; "b.json"] = Some Regular.
Proof.
  apply (collect_files_membership demo_world demo_sources).
  vm_compute. reflexivity.
Defined.

(** X17. [collect_files] returns a sequence if and only if, for every
    pattern of every source, [rglob] returns and [stat] fails on none of the
    entries it yields: one pattern that [rglob] raises on, or one entry on
    which [is_file] raises, in any source, and nothing is returned for the
    others either. *)
Theorem collect_files_returns_iff (w : World) (sources : list SourceConfig) :
  (exists l, outcome (collect_files w sources) = Ok l)
  <-> forall src pattern,
        In src sources -> In pattern (include_or_star src) ->
        job_returns w (Path_of_str (path src)) pattern.
Proof.
  split.
  - intros [l H] src pat Hsrc Hpat. apply collect_files_Ok_inv in H as [Hacc _].
    rewrite Forall_forall in Hacc. apply job_returns_iff.
    apply (Hacc (Path_of_str (path src), pat)), list_elem_of_In, in_jobs. eauto.
  - intros H. eexists. apply collect_files_Ok_inv. split; [|reflexivity].
    apply Forall_forall. intros [base pat] Hjob.
    apply list_elem_of_In, in_jobs in Hjob as [src [Hsrc [-> Hpat]]].
    apply job_returns_iff. now apply H.
Qed.




(** The result depends on the sources through the set of [rglob] calls. *)
Lemma collect_files_same_jobs (w : World) (s1 s2 : list SourceConfig) (l : list Path) :
  (forall job, In job (jobs s1) <-> In job (jobs s2)) ->
  outcome (collect_files w s1) = Ok l ->
  outcome (collect_files w s2) = Ok l.
Proof.
  intros Hjobs H. apply collect_files_Ok_inv in H as [Hacc ->].
  apply collect_files_Ok_inv. split.
  - rewrite Forall_forall in Hacc |- *. intros job Hjob. apply Hacc.
    apply list_elem_of_In. apply list_elem_of_In in Hjob. now apply Hjobs.
  - unfold py_set. f_equal. f_equal. apply same_elements_list_to_set.
    intros p. rewrite !list_elem_of_In, !in_flat_map.
    split; intros [job [Hjob Hp]]; exists job; split; auto; now apply Hjobs.
Qed.

(** X19. The order in which the sources are listed does not matter: listed
    in another order, they give the same sequence. *)
Theorem collect_files_sources_order (w : World) (s1 s2 : list SourceConfig)
    (l : list Path) :
  s1 ≡ₚ s2 ->
  outcome (collect_files w s1) = Ok l ->
  outcome (collect_files w s2) = Ok l.
Proof.
  intros Hperm. apply collect_files_same_jobs. intros job.
  assert (jobs s1 ≡ₚ jobs s2) as Hj by (unfold jobs; now apply Permutation_flat_map).
  split; apply Permutation_in; [exact Hj | symmetry; exact Hj].
Qed.

Lemma collect_files_sources_order_witness :
  outcome (collect_files demo_world
             [ {| path := "./data/raw/sub"; include := [] |};
               {| path := "./data/raw"; include := [PStr "*.csv"; PStr "*"] |} ])
  = Ok [ ["data"; "raw"; "a.csv"]; ["data"; "raw"; "b.json"];
         ["data"; "raw"; "sub"; "c.csv"] ].
Proof.
  apply (collect_files_sources_order demo_world demo_sources).
  - apply perm_swap.
  - vm_compute. reflexivity.
Defined.

(** X20. Listing a source a second time adds nothing. *)
Theorem collect_files_repeated_sources (w : World) (sources : list SourceConfig)
    (l : list Path) :
  outcome (collect_files w sources) = Ok l ->
  outcome (collect_files w (sources ++ sources)) = Ok l.
Proof.
  apply collect_files_same_jobs. intros job. unfold jobs.
  rewrite flat_map_app, in_app_iff. tauto.
Qed.

Lemma collect_files_repeated_sources_witness :
  outcome (collect_files demo_world (demo_sources ++ demo_sources))
  = Ok [ ["data"; "raw"; "a.csv"]; ["data"; "raw"; "b.json"];
         ["data"; "raw"; "sub"; "c.csv"] ].
Proof.
  apply (collect_files_repeated_sources demo_world demo_sources).
  vm_compute. reflexivity.
Defined.

(** X21. Adding sources only adds paths: what a list of sources gives is
    among what a longer list gives. *)
Theorem collect_files_monotone (w : World) (sources more : list SourceConfig)
    (l1 l2 : list Path) (p : Path) :
  outcome (collect_files w sources) = Ok l1 ->
  outcome (collect_files w (sources ++ more)) = Ok l2 ->
  p ∈ l1 -> p ∈ l2.
Proof.
  intros H1 H2. apply collect_files_Ok_inv in H1 as [_ ->].
  apply collect_files_Ok_inv in H2 as [_ ->].
  rewrite !sorted_py_set_elem_of, !list_elem_of_In, !in_flat_map.
  intros [job [Hjob Hp]]. exists job. split; [|exact Hp].
  unfold jobs in *. rewrite flat_map_app, in_app_iff. now left.
Qed.

Lemma collect_files_monotone_witness :
  ["data"; "raw"; "sub"; "c.csv"] ∈
    [ ["data"; "raw"; "a.csv"]; ["data"; "raw"; "b.json"];
      ["data"; "raw"; "sub"; "c.csv"] ].
Proof.
  apply (collect_files_monotone demo_world
           [ {| path := "./data/raw/sub"; include := [] |} ]
           demo_sources
           [ ["data"; "raw"; "sub"; "c.csv"] ]).
  - vm_compute. reflexivity.
  - vm_compute. reflexivity.
  - apply list_elem_of_In. simpl. auto.
Defined.

(** X22. Without sources, [collect_files] makes no system call and returns
    the empty sequence. *)
Theorem collect_files_no_sources (w : World) : collect_files w [] = ([], Ok []).
Proof.
  unfold collect_files. cbn [for_each]. unfold ret, bind.
  now rewrite sorted_py_set_nil.
Qed.
